(** * flarelint.rule: rule registry, loader and evaluator

    A shallow embedding of [src/flarelint/rule.py].  The module keeps one
    process-wide dictionary [_rulebook]; rule objects register themselves
    into it when they are constructed, [load] fills it from rule-source
    files on disk, and [apply] evaluates one rule on one document node. *)

From Stdlib Require Import Ascii String List Bool Arith Lia.
From stdpp Require Import gmap strings list fin_maps.

(** ** Python outcomes *)

(** The exceptions the modelled code can raise. *)
Inductive exn :=
  | TypeError
  | KeyError (key : string)
  | AssertionError
  | OSError (what : string)
  | UserError (what : string).

(** The outcome of evaluating a Python expression or statement. *)
Inductive outcome (A : Type) :=
  | Ret (a : A)
  | Raise (e : exn).
Arguments Ret {A} a.
Arguments Raise {A} e.

Definition is_raise {A} (o : outcome A) : bool :=
  match o with Raise _ => true | Ret _ => false end.

(** ** [os.path], [fnmatch] and [glob]

    The standard-library functions the loader calls, restricted to what
    the two patterns of [rule.py] exercise. *)

Inductive os_name := posix | nt.

Module ospath.

Definition lower (c : ascii) : ascii :=
  let n := nat_of_ascii c in
  if (65 <=? n)%nat && (n <=? 90)%nat then ascii_of_nat (n + 32) else c.

(** The Windows path separator (code 92). *)
Definition backslash : ascii := ascii_of_nat 92.

Definition nt_normchar (c : ascii) : ascii :=
  if Ascii.eqb c "/" then backslash else lower c.

Fixpoint map_string (f : ascii → ascii) (s : string) : string :=
  match s with
  | EmptyString => EmptyString
  | String c s' => String (f c) (map_string f s')
  end.

(** [os.path.normcase]: the identity on POSIX; on Windows forward
    slashes become backslashes and letters are lowered (ASCII only
    here). *)
Definition normcase (os : os_name) (s : string) : string :=
  match os with
  | posix => s
  | nt => map_string nt_normchar s
  end.

End ospath.

Module fnmatch.

(** One element of a translated shell pattern. *)
Inductive gtok :=
  | GLit (c : ascii)
  | GAny
  | GStar
  | GClass (neg : bool) (members : list ascii).

(** Outside a bracket, how one pattern character translates. *)
Definition plain_tok (c : ascii) : gtok :=
  if Ascii.eqb c "*" then GStar
  else if Ascii.eqb c "?" then GAny
  else GLit c.

(** Scanner state: outside brackets, or inside after ["["] with the
    negation flag, whether the next ["]"] would still be a member, and
    the members read so far (latest first). *)
Inductive tstate :=
  | Outside
  | Inside (neg : bool) (start : bool) (acc : list ascii).

(** [fnmatch.translate], as a token list instead of a regular
    expression.  A bracket that is never closed is a literal ["["].
    Character ranges ([a-z]) are not modelled: ["-"] is a member like
    any other. *)
Fixpoint translate_from (st : tstate) (pat : string) : list gtok :=
  match pat with
  | EmptyString =>
      match st with
      | Outside => []
      | Inside neg _ acc =>
          GLit "[" :: (if neg then [GLit "!"] else []) ++ map plain_tok (rev acc)
      end
  | String c pat' =>
      match st with
      | Outside =>
          if Ascii.eqb c "[" then translate_from (Inside false true []) pat'
          else plain_tok c :: translate_from Outside pat'
      | Inside neg start acc =>
          if Ascii.eqb c "!" && negb neg && start
          then translate_from (Inside true true acc) pat'
          else if Ascii.eqb c "]" && negb start
          then GClass neg (rev acc) :: translate_from Outside pat'
          else translate_from (Inside neg false (c :: acc)) pat'
      end
  end.

Definition translate (pat : string) : list gtok := translate_from Outside pat.

Definition mem_ascii (c : ascii) (l : list ascii) : bool :=
  existsb (Ascii.eqb c) l.

Definition tok_accepts (t : gtok) (c : ascii) : bool :=
  match t with
  | GLit c' => Ascii.eqb c' c
  | GAny => true
  | GStar => true
  | GClass neg members => xorb neg (mem_ascii c members)
  end.

(** Whole-string match of a token list (the compiled pattern is used
    with [re.fullmatch] semantics and the DOTALL flag). *)
Fixpoint gmatch (p : list gtok) : string → bool :=
  match p with
  | [] => λ s, match s with EmptyString => true | String _ _ => false end
  | GStar :: p' =>
      fix star (s : string) : bool :=
        gmatch p' s ||
        match s with
        | EmptyString => false
        | String _ s' => star s'
        end
  | t :: p' =>
      λ s, match s with
           | EmptyString => false
           | String c s' => tok_accepts t c && gmatch p' s'
           end
  end.

(** [fnmatch.filter names pat] keeps the names for which this holds:
    pattern and name are both passed through [os.path.normcase]. *)
Definition fnmatch (os : os_name) (name pat : string) : bool :=
  gmatch (translate (ospath.normcase os pat)) (ospath.normcase os name).

End fnmatch.

Module glob.

(** [glob._ishidden] *)
Definition _ishidden (name : string) : bool :=
  match name with
  | String c _ => Ascii.eqb c "."
  | EmptyString => false
  end.

(** [glob._glob1]: the names of one directory listing that match
    [pattern]; dot-files are dropped unless the pattern itself starts
    with a dot. *)
Definition _glob1 (os : os_name) (names : list string) (pattern : string)
  : list string :=
  let names :=
    if _ishidden pattern then names
    else List.filter (λ x, negb (_ishidden x)) names in
  List.filter (λ x, fnmatch.fnmatch os x pattern) names.

End glob.

(** ** The platform and the [resources] module *)

(** What the interpreter fixes for the whole run: the flavour of
    [os.path], its [join], and where [rule.py] itself is installed. *)
Class Host := {
  host_os : os_name;                       (* which [os.path] is in use *)
  path_join : string → string → string;    (* [os.path.join] *)
  module_dir : string                      (* [os.path.split(__file__)[0]] *)
}.

(** [flarelint/resources.py] is imported by [rule.py] but only its names
    are used there; its constants are taken as parameters. *)
Class Resources := {
  ERROR_LEVEL : string;
  WARNING_LEVEL : string;
  PROGRESS_RULES_DEFAULT : string;
  (* [resources.PROGRESS_RULES_LOAD.format(p)] *)
  PROGRESS_RULES_LOAD_format : string → string
}.

Section Model.
Context {Node Path : Type} {res : Resources} {hst : Host}.

(** A user-supplied callable taking a node.  Only the truth value of the
    returned object is kept, which is all that [apply] looks at; a call
    that raises is [Raise e].  Calling an object that is not callable
    raises [TypeError], so such an object is the predicate that raises
    [TypeError] at every node. *)
Definition predicate := Node → outcome bool.

Definition not_callable : predicate := λ _, Raise TypeError.

(** [class Result] *)
Record Result := {
  path : Path;
  level : string;
  node : Node;
  message : string
}.

(** The three classes whose instances are rule objects. *)
Inductive rule_class := Cls_Rule | ClsError | ClsWarning.

(** The class attribute [_LEVEL], resolved through the class of [self]. *)
Definition _LEVEL (c : rule_class) : string :=
  match c with
  | Cls_Rule => "Instantiate from rule.Error or rule.Warning instead."
  | ClsError => ERROR_LEVEL
  | ClsWarning => WARNING_LEVEL
  end.

(** An instance of [_Rule] (or of a subclass): its class and the three
    attributes [__init__] sets. *)
Record _Rule := {
  rule_cls : rule_class;
  rule_match : predicate;
  rule_test : predicate;
  rule_message : string
}.

(** Rule objects live in the interpreter's heap; the registry and every
    other holder refer to them by reference. *)
Definition rule_ref := nat.

(** ** Rule-source files and the file system *)

(** One top-level statement of a rule-source module: a rule declaration
    ([rule.Error(...)], [rule.Warning(...)], or the base class called
    directly), or top-level code that raises. *)
Inductive toplevel :=
  | RuleDecl (c : rule_class) (extensions : list string)
            (m t : predicate) (msg : string)
  | Throw (e : exn).

(** An entry of a directory: a regular file holding module source, or a
    subdirectory (whose contents no operation here looks at). *)
Inductive dirent :=
  | EFile (code : list toplevel)
  | ESubdir.

(** What a path names: a regular file or a directory with its entries. *)
Inductive fsobj :=
  | FsFile
  | FsDir (entries : gmap string dirent).

(** A call of a user-supplied predicate, as an observable event. *)
Inductive call :=
  | CallMatch (n : Node)
  | CallTest (n : Node).

(** ** The state the module runs in *)

Record World := {
  _rulebook : gmap string (list rule_ref);   (* the module global *)
  heap : list _Rule;                         (* rule objects, by reference *)
  environ : gmap string string;              (* os.environ *)
  fs : gmap string fsobj;                    (* directories by path *)
  stdout : list string;                      (* lines printed *)
  calls : list call                          (* predicate calls made *)
}.

Definition set_rulebook (f : gmap string (list rule_ref) → gmap string (list rule_ref))
    (w : World) : World :=
  {| _rulebook := f (_rulebook w); heap := heap w; environ := environ w;
     fs := fs w; stdout := stdout w; calls := calls w |}.

Definition set_heap (f : list _Rule → list _Rule) (w : World) : World :=
  {| _rulebook := _rulebook w; heap := f (heap w); environ := environ w;
     fs := fs w; stdout := stdout w; calls := calls w |}.

Definition set_fs (f : gmap string fsobj → gmap string fsobj) (w : World) : World :=
  {| _rulebook := _rulebook w; heap := heap w; environ := environ w;
     fs := f (fs w); stdout := stdout w; calls := calls w |}.

Definition set_stdout (f : list string → list string) (w : World) : World :=
  {| _rulebook := _rulebook w; heap := heap w; environ := environ w;
     fs := fs w; stdout := f (stdout w); calls := calls w |}.

Definition set_calls (f : list call → list call) (w : World) : World :=
  {| _rulebook := _rulebook w; heap := heap w; environ := environ w;
     fs := fs w; stdout := stdout w; calls := f (calls w) |}.

(** ** Statements: state plus exceptions

    A raised exception leaves the state as it was at the raise. *)
Definition M (A : Type) : Type := World → outcome A * World.

#[export] Instance M_ret : MRet M := λ A a w, (Ret a, w).

#[export] Instance M_bind : MBind M := λ A B k m w,
  match m w with
  | (Ret a, w') => k a w'
  | (Raise e, w') => (Raise e, w')
  end.

Definition raise {A} (e : exn) : M A := λ w, (Raise e, w).

Definition gets {A} (f : World → A) : M A := λ w, (Ret (f w), w).

Definition modify (f : World → World) : M unit := λ w, (Ret tt, f w).

Definition lift {A} (o : outcome A) : M A := λ w, (o, w).

(** [for x in l: body(x)] *)
Fixpoint for_ {A} (l : list A) (body : A → M unit) : M unit :=
  match l with
  | [] => mret tt
  | x :: l' => body x;; for_ l' body
  end.

(** [print(line)] *)
Definition print (line : string) : M unit :=
  modify (set_stdout (λ out, out ++ [line])).

(** ** The registry *)

(** [_rulebook[e].append(rule)] *)
Definition dict_append (e : string) (rule : rule_ref) : M unit := λ w,
  match _rulebook w !! e with
  | Some l => (Ret tt, set_rulebook <[e := l ++ [rule]]> w)
  | None => (Raise (KeyError e), w)
  end.

Definition _addrule (extensions : list string) (rule : rule_ref) : M unit :=
  for_ extensions (λ e,
    rb ← gets _rulebook;
    (if decide (is_Some (rb !! e)) then mret tt
     else modify (set_rulebook <[e := []]>));;
    dict_append e rule).

Definition getrules (extension : string) : M (option (list rule_ref)) :=
  gets (λ w, _rulebook w !! extension).

(** ** Rule objects *)

(** Allocation of a fresh object. *)
Definition alloc (r : _Rule) : M rule_ref := λ w,
  (Ret (length (heap w)), set_heap (λ h, h ++ [r]) w).

(** [_Rule.__init__], for an instance of class [c]; the result is the
    reference to the new object. *)
Definition __init__ (c : rule_class) (extensions : list string)
    (m t : predicate) (msg : string) : M rule_ref :=
  self ← alloc {| rule_cls := c; rule_match := m; rule_test := t;
                  rule_message := msg |};
  _addrule extensions self;;
  mret self.

Definition Error := __init__ ClsError.
Definition Warning := __init__ ClsWarning.

(** Calling a predicate: the call is recorded, then its outcome taken. *)
Definition call_pred (ev : Node → call) (f : predicate) (n : Node) : M bool :=
  modify (set_calls (λ l, l ++ [ev n]));;
  lift (f n).

(** [_Rule.apply]; [and] evaluates its right operand only when the left
    one is true. *)
Definition apply (self : _Rule) (p : Path) (n : Node) : M (option Result) :=
  matched ← call_pred CallMatch (rule_match self) n;
  broken ← (if matched : bool
            then passed ← call_pred CallTest (rule_test self) n;
                 mret (negb passed)
            else mret false);
  if broken : bool
  then mret (Some {| path := p; level := _LEVEL (rule_cls self);
                     node := n; message := rule_message self |})
  else mret None.

(** ** Module constants *)

Definition TOPICS : list string := [".htm"; ".html"].
Definition TOPICS_AND_SNIPPETS : list string := TOPICS ++ [".flsnp"].
Definition TOCS : list string := [".fltoc"].
Definition TARGETS : list string := [".fltar"].
Definition CAPTURE_GRAPHICS : list string := [".props"].
Definition IMPORTS : list string := [".flimpfl"].

Definition _RULE_MODULE_PATTERN : string := "[!_][!_]*.py".

(** ** File-system operations *)

(** [os.environ[key]] *)
Definition environ_get (key : string) : M string := λ w,
  match environ w !! key with
  | Some v => (Ret v, w)
  | None => (Raise (KeyError key), w)
  end.

(** [os.path.isdir] *)
Definition isdir (d : string) : M bool :=
  gets (λ w, match fs w !! d with Some (FsDir _) => true | _ => false end).

(** The names in directory [d]; nothing when [d] is not a directory. *)
Definition listdir (d : string) : M (list string) :=
  gets (λ w, match fs w !! d with
             | Some (FsDir entries) => (map_to_list entries).*1
             | _ => []
             end).

(** [glob.glob(os.path.join(d, pattern))] for a directory path [d]
    without wildcard characters; the result is given as the matching
    names inside [d] (the loader takes the basename of each path again). *)
Definition glob_glob (d pattern : string) : M (list string) :=
  names ← listdir d;
  mret (glob._glob1 host_os names pattern).

(** [os.makedirs(d, exist_ok=True)] *)
Definition makedirs (d : string) : M unit := λ w,
  match fs w !! d with
  | Some (FsDir _) => (Ret tt, w)
  | Some FsFile => (Raise (OSError "FileExistsError"), w)
  | None => (Ret tt, set_fs <[d := FsDir ∅]> w)
  end.

(** [shutil.copy(os.path.join(srcdir, name), dst)] *)
Definition shutil_copy (srcdir name dst : string) : M unit := λ w,
  match fs w !! srcdir with
  | Some (FsDir sentries) =>
      match sentries !! name with
      | Some (EFile code) =>
          match fs w !! dst with
          | Some (FsDir dentries) =>
              if decide (srcdir = dst) then (Raise (OSError "SameFileError"), w)
              else match dentries !! name with
                   | Some ESubdir => (Raise (OSError "IsADirectoryError"), w)
                   | _ => (Ret tt,
                           set_fs <[dst := FsDir (<[name := EFile code]> dentries)]> w)
                   end
          | _ => (Ret tt, set_fs <[dst := FsFile]> w)
          end
      | Some ESubdir => (Raise (OSError "IsADirectoryError"), w)
      | None => (Raise (OSError "FileNotFoundError"), w)
      end
  | _ => (Raise (OSError "FileNotFoundError"), w)
  end.

(** ** The loader *)

(** The condition of the [if] in [_check], before negation. *)
Definition has_rules (user : string) : M bool :=
  d ← isdir user;
  if d : bool
  then found ← glob_glob user _RULE_MODULE_PATTERN;
       mret (negb (bool_decide (found = [])))
  else mret false.

Definition _check (user default : string) (verbose : bool) : M unit :=
  ok ← has_rules user;
  (if negb ok
   then (if verbose then print PROGRESS_RULES_DEFAULT else mret tt);;
        makedirs user;;
        srcs ← glob_glob default "*.py";
        for_ srcs (λ src, shutil_copy default src user)
   else mret tt);;
  d ← isdir user;
  if d : bool then mret tt else raise AssertionError.

(** One top-level statement of a rule-source module. *)
Definition exec_stmt (s : toplevel) : M unit :=
  match s with
  | RuleDecl c extensions m t msg => __init__ c extensions m t msg;; mret tt
  | Throw e => raise e
  end.

(** [spec.loader.exec_module(...)] for the file [name] in [dir]. *)
Definition exec_module (dir name : string) : M unit := λ w,
  match fs w !! dir with
  | Some (FsDir entries) =>
      match entries !! name with
      | Some (EFile code) => for_ code exec_stmt w
      | Some ESubdir => (Raise (OSError "IsADirectoryError"), w)
      | None => (Raise (OSError "FileNotFoundError"), w)
      end
  | _ => (Raise (OSError "FileNotFoundError"), w)
  end.

Definition _rulesdir : M string :=
  appdata ← environ_get "APPDATA";
  mret (path_join appdata "FlareLint").

(** [load]; [assert] statements are executed (the interpreter is not
    run with [-O]). *)
Definition load (verbose : bool) : M unit :=
  appdata ← environ_get "APPDATA";
  let userpath := path_join appdata "FlareLint" in
  let defaultpath := path_join module_dir "rules" in
  _check userpath defaultpath verbose;;
  (if verbose then print (PROGRESS_RULES_LOAD_format userpath) else mret tt);;
  rulemodules ← glob_glob userpath _RULE_MODULE_PATTERN;
  for_ rulemodules (λ modulefile,
    (if verbose then print ("  " +:+ modulefile) else mret tt);;
    exec_module userpath modulefile);;
  rb ← gets _rulebook;
  if decide (rb = ∅) then raise AssertionError else mret tt.

(** ** Notions used in the statements *)

(** The interpreter state before any rule module has run. *)
Definition initial (env : gmap string string) (files : gmap string fsobj) : World :=
  {| _rulebook := ∅; heap := []; environ := env; fs := files;
     stdout := []; calls := [] |}.

(** How many times [e] is listed in [l]. *)
Definition occurrences (e : string) (l : list string) : nat :=
  length (List.filter (String.eqb e) l).

(** The dictionary [_addrule] leaves behind, as a fold over the listed
    extensions. *)
Definition rulebook_after (extensions : list string) (rule : rule_ref)
    (rb : gmap string (list rule_ref)) : gmap string (list rule_ref) :=
  foldl (λ rb e, <[e := default [] (rb !! e) ++ [rule]]> rb) rb extensions.

(** A sequence of [_addrule] calls, in order. *)
Definition register_all (regs : list (list string * rule_ref)) : M unit :=
  for_ regs (λ reg, _addrule reg.1 reg.2).

(** What a sequence of [_addrule] calls registers under [e], in call
    order: each rule once per listing of [e] in its call. *)
Definition registered_under (e : string) (regs : list (list string * rule_ref))
  : list rule_ref :=
  concat (map (λ reg, replicate (occurrences e reg.1) reg.2) regs).

(** No extension is mapped to an empty sequence. *)
Definition no_empty_seq (w : World) : Prop :=
  ∀ e l, _rulebook w !! e = Some l → l ≠ [].

(** Every reference held by the registry is to an allocated object. *)
Definition wf_refs (w : World) : Prop :=
  ∀ e l r, _rulebook w !! e = Some l → r ∈ l → r < length (heap w).

(** [e] is listed by no declaration of [code]. *)
Definition never_listed (e : string) (code : list toplevel) : Prop :=
  Forall (λ s, match s with
               | RuleDecl _ extensions _ _ _ => e ∉ extensions
               | Throw _ => True
               end) code.

(** States the module can be in: the initial one, then any sequence of
    rule constructions, direct [_addrule] calls on existing objects,
    [load] calls, and steps that leave registry and heap alone (the
    other functions of the module, or changes to files and environment
    from outside). *)
Inductive reachable : World → Prop :=
  | reach_initial env files : reachable (initial env files)
  | reach_init c extensions m t msg w :
      reachable w → reachable (__init__ c extensions m t msg w).2
  | reach_addrule extensions r w :
      reachable w → r < length (heap w) → reachable (_addrule extensions r w).2
  | reach_load verbose w :
      reachable w → reachable (load verbose w).2
  | reach_frame w w' :
      reachable w → _rulebook w' = _rulebook w → heap w' = heap w →
      reachable w'.

(** [m] keeps [P] true, whatever its outcome. *)
Definition preserves {A} (P : World → Prop) (m : M A) : Prop :=
  ∀ w, P w → P (m w).2.

(** [P] looks at the registry and the heap only. *)
Definition registry_only (P : World → Prop) : Prop :=
  ∀ w w', _rulebook w' = _rulebook w → heap w' = heap w → P w → P w'.


(** Eligibility as [load] enumerates: membership in the result of the
    glob over a listing that has the name. *)
Definition eligible (name : string) : bool :=
  bool_decide (name ∈ glob._glob1 host_os [name] _RULE_MODULE_PATTERN).


End Model.

Arguments predicate Node : clear implicits.
Arguments Result Node Path : clear implicits.
Arguments _Rule Node : clear implicits.
Arguments toplevel Node : clear implicits.
Arguments dirent Node : clear implicits.
Arguments fsobj Node : clear implicits.
Arguments call Node : clear implicits.
Arguments World Node : clear implicits.
Arguments M Node A : clear implicits.

(** ** A concrete instance

    Nodes with a name and the names of their children, and the two rules
    of the module docstring. *)
Module Demo.

Record node := { name : string; children : list string }.

Definition resources : Resources :=
  {| ERROR_LEVEL := "ERROR"; WARNING_LEVEL := "WARNING";
     PROGRESS_RULES_DEFAULT := "Copying default rules.";
     PROGRESS_RULES_LOAD_format := λ p, "Loading rules from " +:+ p |}.

Definition host : Host :=
  {| host_os := nt;
     path_join := λ a b, a +:+ String ospath.backslash b;
     module_dir := "C:\Python\Lib\site-packages\flarelint" |}.


Definition userpath : string := "C:\Users\u\AppData\Roaming\FlareLint".
Definition defaultpath : string := "C:\Python\Lib\site-packages\flarelint\rules".

Definition env : gmap string string :=
  {[ "APPDATA" := "C:\Users\u\AppData\Roaming" ]}.

(** [match=lambda n: n.Name() == 'body'], [test=lambda n: n.child('h1')] *)
Definition is_body : predicate node := λ n, Ret (String.eqb (name n) "body").
Definition has_h1 : predicate node :=
  λ n, Ret (existsb (String.eqb "h1") (children n)).

(** [match=lambda n: n.Name() in ['b', 'u', 'i']], [test=lambda n: False] *)
Definition is_hard_style : predicate node :=
  λ n, Ret (existsb (String.eqb (name n)) ["b"; "u"; "i"]).
Definition never : predicate node := λ _, Ret false.

(** A test that raises whenever it is called. *)
Definition broken : predicate node := λ _, Raise (UserError "boom").

Definition body_with_h1 : node := {| name := "body"; children := ["h1"; "p"] |}.
Definition body_without_h1 : node := {| name := "body"; children := ["p"] |}.
Definition div : node := {| name := "div"; children := [] |}.

Definition h1_rule : _Rule node :=
  {| rule_cls := ClsError; rule_match := is_body; rule_test := has_h1;
     rule_message := "Missing h1 in topic body." |}.

Definition topic_rules : list (toplevel node) :=
  [ RuleDecl ClsError [".htm"] is_body has_h1 "Missing h1 in topic body.";
    RuleDecl ClsError [".htm"] is_hard_style never
            "Hard-coded styles are not permitted." ].

(** The defaults directory as shipped: one rule file and a package
    marker. *)
Definition default_entries : gmap string (dirent node) :=
  {[ "topic_rules.py" := EFile topic_rules; "__init__.py" := EFile [] ]}.

(** A fresh installation: the user directory does not exist yet. *)
Definition fresh_install : World node :=
  initial env {[ defaultpath := FsDir default_entries ]}.

(** The state after the bootstrap check on a fresh installation. *)
Definition seeded : World node :=
  (_check (res := resources) (hst := host) userpath defaultpath true
          fresh_install).2.

(** The state after the first [load] on a fresh installation. *)
Definition loaded : World node :=
  (load (res := resources) (hst := host) true fresh_install).2.

(** An installation whose defaults directory ships no rule file. *)
Definition no_defaults : World node :=
  initial env {[ defaultpath := FsDir {[ "__init__.py" := EFile [] ]} ]}.


End Demo.


(** ** The shipped rule file [rules/flarelint_img_callout_hardformat.py] *)

(** What the rule file uses of [flarenode], which is not among the
    sources: the matcher factory [whenself] and the accessor [text()] of
    a node.  Both are parameters. *)
Class FlareNode (Node : Type) := {
  whenself : string → predicate Node;
  node_text : Node → outcome string
}.

Section ShippedRules.
Context {Node : Type} {api : FlareNode Node}.

Definition _ACCEPTED_FONT_SIZE : string := "16pt".

(** [lambda n: not n.text().startswith(r'{\rtf')] *)
Definition hardformat_test : predicate Node := λ n,
  match node_text n with
  | Ret t => Ret (negb (String.prefix "{\rtf" t))
  | Raise e => Raise e
  end.

(** The line break inside the triple-quoted message (code 10). *)
Definition newline : string := String (ascii_of_nat 10) "".

Definition hardformat_message : string :=
  ("Custom formatting in a callout.  To fix, in Capture, replace this"
   +:+ newline
   +:+ "    callout with a new callout and set the font size to ")
  +:+ _ACCEPTED_FONT_SIZE +:+ ".".

(** The top-level code of the file: one [rule.Warning(...)]. *)
Definition flarelint_img_callout_hardformat : list (toplevel Node) :=
  [ RuleDecl ClsWarning CAPTURE_GRAPHICS (whenself "Shape") hardformat_test
             hardformat_message ].

End ShippedRules.

(** ** Further notions *)

Section Extension.
Context {Node : Type}.

(** [w'] still holds, in place, everything [w] held: the heap of [w] is
    a prefix of the heap of [w'], and every sequence of the registry of
    [w] is a prefix of the sequence [w'] has for the same extension. *)
Definition extends (w w' : World Node) : Prop :=
  heap w `prefix_of` heap w' ∧
  ∀ e l, _rulebook w !! e = Some l →
         ∃ l', _rulebook w' !! e = Some l' ∧ l `prefix_of` l'.

(** Everything but the call record is the same in [w] and [w']. *)
Definition same_but_calls (w w' : World Node) : Prop :=
  _rulebook w' = _rulebook w ∧ heap w' = heap w ∧ environ w' = environ w ∧
  fs w' = fs w ∧ stdout w' = stdout w.

(** The rule objects a module's top-level code builds, in source
    order, up to its first raising statement. *)
Fixpoint module_objects (code : list (toplevel Node)) : list (_Rule Node) :=
  match code with
  | RuleDecl c _ m t msg :: rest =>
      {| rule_cls := c; rule_match := m; rule_test := t; rule_message := msg |}
      :: module_objects rest
  | _ => []
  end.

(** The registrations that code makes when the next free reference is
    [base]: one [_addrule] call per declaration, in source order. *)
Fixpoint module_events (base : nat) (code : list (toplevel Node))
  : list (list string * rule_ref) :=
  match code with
  | RuleDecl _ extensions _ _ _ :: rest =>
      (extensions, base) :: module_events (S base) rest
  | _ => []
  end.

(** How executing the code ends. *)
Fixpoint module_outcome (code : list (toplevel Node)) : outcome () :=
  match code with
  | [] => Ret ()
  | RuleDecl _ _ _ _ _ :: rest => module_outcome rest
  | Throw e :: _ => Raise e
  end.

(** [P] is indifferent to the file system. *)
Definition fs_blind (P : World Node → Prop) : Prop :=
  ∀ f w, P w → P (set_fs f w).


End Extension.

(** ** More concrete states *)
Module Scenarios.

(** No [APPDATA] in the environment. *)
Definition no_appdata : World Demo.node := initial ∅ ∅.

(** The user path names a regular file. *)
Definition user_is_file : World Demo.node :=
  initial Demo.env {[ Demo.userpath := FsFile;
                      Demo.defaultpath := FsDir Demo.default_entries ]}.

(** A rule file whose second statement raises. *)
Definition bad_rules : list (toplevel Demo.node) :=
  [ RuleDecl ClsWarning [".fltoc"] Demo.is_body Demo.has_h1 "m";
    Throw (UserError "NameError") ].


(** A populated user directory whose only rule file is broken. *)
Definition broken_install : World Demo.node :=
  initial Demo.env
    {[ Demo.userpath := FsDir {[ "bad_rules.py" := EFile bad_rules ]} ]}.

(** A user directory with a file of the user's but no rule file. *)
Definition unseeded : World Demo.node :=
  initial Demo.env
    {[ Demo.userpath := FsDir {[ "notes.txt" := EFile [] ]};
       Demo.defaultpath := FsDir Demo.default_entries ]}.

(** Where [load] stops on the broken installation. *)
Definition broken_after : World Demo.node :=
  (load (res := Demo.resources) (hst := Demo.host) true broken_install).2.

(** Capture-graphics nodes: a tag and a text. *)
Record shape := { tag : string; body : string }.

Definition shape_api : FlareNode shape :=
  {| whenself := λ s n, Ret (String.eqb (tag n) s);
     node_text := λ n, Ret (body n) |}.

Definition rtf_callout : shape := {| tag := "Shape"; body := "{\rtf1 bold}" |}.
Definition plain_callout : shape := {| tag := "Shape"; body := "Press OK" |}.

End Scenarios.

(** * Properties *)

Section Evaluator.
Context {Node Path : Type} {res : Resources}.
Implicit Types (r : _Rule Node) (p : Path) (n : Node) (w : World Node).

(** What [apply] does to the state: it only extends the call record. *)
Lemma apply_run r p n w :
  apply r p n w =
  let w1 := set_calls (λ l, l ++ [CallMatch n]) w in
  match rule_match r n with
  | Raise e => (Raise e, w1)
  | Ret false => (Ret None, w1)
  | Ret true =>
      let w2 := set_calls (λ l, l ++ [CallTest n]) w1 in
      match rule_test r n with
      | Raise e => (Raise e, w2)
      | Ret true => (Ret None, w2)
      | Ret false =>
          (Ret (Some {| path := p; level := _LEVEL (rule_cls r);
                        node := n; message := rule_message r |}), w2)
      end
  end.
Proof.
  unfold apply, call_pred, mbind, M_bind, mret, M_ret, modify, lift; simpl.
  destruct (rule_match r n) as [[|]|e]; simpl; try reflexivity.
  destruct (rule_test r n) as [[|]|e]; reflexivity.
Qed.

End Evaluator.

Section Registry.
Context {Node : Type}.
Implicit Types (w : World Node) (rb : gmap string (list rule_ref)).

Lemma set_rulebook_id w : set_rulebook (λ rb, rb) w = w.
Proof. destruct w; reflexivity. Qed.

Lemma set_rulebook_ext f g w :
  f (_rulebook w) = g (_rulebook w) → set_rulebook f w = set_rulebook g w.
Proof. intros E. unfold set_rulebook. rewrite E. reflexivity. Qed.

Lemma for_cons {A} (x : A) l (body : A → M Node ()) w :
  for_ (x :: l) body w =
  match body x w with
  | (Ret _, w') => for_ l body w'
  | (Raise e, w') => (Raise e, w')
  end.
Proof. reflexivity. Qed.

(** One iteration of the loop in [_addrule]. *)
Lemma addrule_step e (rule : rule_ref) w :
  (rb ← gets _rulebook;
   (if decide (is_Some (rb !! e)) then mret tt
    else modify (set_rulebook <[e := []]>));;
   dict_append e rule) w
  = (Ret tt, set_rulebook (λ rb, <[e := default [] (rb !! e) ++ [rule]]> rb) w).
Proof.
  unfold mbind, M_bind, gets, modify, mret, M_ret, dict_append; simpl.
  destruct (decide (is_Some (_rulebook w !! e))) as [[l Hl]|Hn]; simpl.
  - rewrite Hl. f_equal. apply set_rulebook_ext. rewrite Hl. reflexivity.
  - rewrite lookup_insert_eq. simpl.
    apply eq_None_not_Some in Hn.
    f_equal. unfold set_rulebook; simpl. f_equal.
    rewrite Hn. apply insert_insert_eq.
Qed.

(** [_addrule] never raises and changes the registry only. *)
Lemma addrule_run extensions (rule : rule_ref) w :
  _addrule extensions rule w
  = (Ret tt, set_rulebook (rulebook_after extensions rule) w).
Proof.
  revert w. induction extensions as [|e l IH]; intros w.
  - simpl. unfold mret, M_ret. f_equal. symmetry. apply set_rulebook_id.
  - unfold _addrule. rewrite for_cons, addrule_step.
    fold (@_addrule Node l rule). rewrite IH. reflexivity.
Qed.

Lemma occurrences_cons e x l :
  occurrences e (x :: l) =
  if decide (x = e) then S (occurrences e l) else occurrences e l.
Proof.
  unfold occurrences. simpl.
  destruct (String.eqb_spec e x) as [->|Hne].
  - rewrite decide_True by done. reflexivity.
  - rewrite decide_False by congruence. reflexivity.
Qed.

Lemma occurrences_zero e l : occurrences e l = 0 ↔ e ∉ l.
Proof.
  induction l as [|x l IH].
  - split; [intros _; apply not_elem_of_nil | reflexivity].
  - rewrite occurrences_cons, not_elem_of_cons.
    destruct (decide (x = e)) as [->|Hne].
    + split; [discriminate | intros [[] _]; reflexivity].
    + rewrite IH. split; [intros ?; split; congruence | tauto].
Qed.

Lemma rulebook_after_cons x l (rule : rule_ref) rb :
  rulebook_after (x :: l) rule rb =
  rulebook_after l rule (<[x := default [] (rb !! x) ++ [rule]]> rb).
Proof. reflexivity. Qed.

(** What a lookup sees after [_addrule]: the old sequence followed by
    the rule, once per listing of the extension. *)
Lemma lookup_rulebook_after extensions (rule : rule_ref) rb e :
  rulebook_after extensions rule rb !! e =
  match occurrences e extensions with
  | 0 => rb !! e
  | S k => Some (default [] (rb !! e) ++ replicate (S k) rule)
  end.
Proof.
  revert rb. induction extensions as [|x l IH]; intros rb; [reflexivity|].
  rewrite rulebook_after_cons, IH, occurrences_cons.
  destruct (decide (x = e)) as [->|Hne].
  - rewrite lookup_insert_eq. simpl.
    destruct (occurrences e l) as [|k]; simpl.
    + reflexivity.
    + rewrite <- app_assoc. reflexivity.
  - rewrite lookup_insert_ne by done. reflexivity.
Qed.

Lemma lookup_rulebook_after_other extensions (rule : rule_ref) rb e :
  e ∉ extensions → rulebook_after extensions rule rb !! e = rb !! e.
Proof.
  intros Hn. rewrite lookup_rulebook_after.
  apply occurrences_zero in Hn. rewrite Hn. reflexivity.
Qed.

(** Constructing a rule never raises: the object is allocated at the
    next free reference and registered. *)
Lemma init_run c extensions (m t : predicate Node) msg w :
  __init__ c extensions m t msg w =
  (Ret (length (heap w)),
   set_rulebook (rulebook_after extensions (length (heap w)))
     (set_heap (λ h, h ++ [{| rule_cls := c; rule_match := m;
                              rule_test := t; rule_message := msg |}]) w)).
Proof.
  unfold __init__, alloc, mbind, M_bind, mret, M_ret.
  rewrite addrule_run. reflexivity.
Qed.

End Registry.

(** ** The evaluator *)

(** C1. For every rule [r], path [p] and node [n] on which [r.match] is
    true: when [r.test] is true, [apply] returns [None]; when [r.test] is
    false, [apply] returns a [Result] carrying [p], the level of the
    class of [r], the same node [n], and the message of [r].  The level
    is [ERROR_LEVEL] for a rule of class [Error] and [WARNING_LEVEL] for
    one of class [Warning], and those are the classes of the objects the
    constructors [Error] and [Warning] create. *)
Theorem apply_on_match {Node Path : Type} {res : Resources}
    (r : _Rule Node) (p : Path) (n : Node) (w : World Node) :
  rule_match r n = Ret true →
  (rule_test r n = Ret true → (apply r p n w).1 = Ret None) ∧
  (rule_test r n = Ret false →
   (apply r p n w).1 =
   Ret (Some {| path := p; level := _LEVEL (rule_cls r);
                node := n; message := rule_message r |})) ∧
  (rule_cls r = ClsError → _LEVEL (rule_cls r) = ERROR_LEVEL) ∧
  (rule_cls r = ClsWarning → _LEVEL (rule_cls r) = WARNING_LEVEL) ∧
  (∀ extensions (w0 : World Node),
     (Error extensions (rule_match r) (rule_test r) (rule_message r) w0).1
       = Ret (length (heap w0)) ∧
     heap (Error extensions (rule_match r) (rule_test r) (rule_message r) w0).2
       !! length (heap w0)
       = Some {| rule_cls := ClsError; rule_match := rule_match r;
                 rule_test := rule_test r; rule_message := rule_message r |}) ∧
  (∀ extensions (w0 : World Node),
     (Warning extensions (rule_match r) (rule_test r) (rule_message r) w0).1
       = Ret (length (heap w0)) ∧
     heap (Warning extensions (rule_match r) (rule_test r) (rule_message r) w0).2
       !! length (heap w0)
       = Some {| rule_cls := ClsWarning; rule_match := rule_match r;
                 rule_test := rule_test r; rule_message := rule_message r |}).
Proof.
  intros Hm. rewrite apply_run, Hm. simpl.
  repeat split.
  - intros Ht. rewrite Ht. reflexivity.
  - intros Ht. rewrite Ht. reflexivity.
  - intros ->. reflexivity.
  - intros ->. reflexivity.
  - unfold Error. rewrite init_run. reflexivity.
  - unfold Error. rewrite init_run. simpl.
    rewrite lookup_app_r, Nat.sub_diag by lia. reflexivity.
  - unfold Warning. rewrite init_run. reflexivity.
  - unfold Warning. rewrite init_run. simpl.
    rewrite lookup_app_r, Nat.sub_diag by lia. reflexivity.
Qed.

Lemma apply_on_match_witness :
  rule_match Demo.h1_rule Demo.body_without_h1 = Ret true ∧
  (apply (res := Demo.resources) Demo.h1_rule "topic.htm" Demo.body_without_h1
         Demo.fresh_install).1
  = Ret (Some {| path := "topic.htm"; level := "ERROR";
                 node := Demo.body_without_h1;
                 message := "Missing h1 in topic body." |}) ∧
  (apply (res := Demo.resources) Demo.h1_rule "topic.htm" Demo.body_with_h1
         Demo.fresh_install).1
  = Ret None.
Proof.
  split; [reflexivity|]. split.
  - apply (apply_on_match (res := Demo.resources) Demo.h1_rule "topic.htm"
             Demo.body_without_h1 Demo.fresh_install); reflexivity.
  - apply (apply_on_match (res := Demo.resources) Demo.h1_rule "topic.htm"
             Demo.body_with_h1 Demo.fresh_install); reflexivity.
Defined.

(** C2. For every rule [r] and node [n] on which [r.match] is false,
    [apply] returns [None] whatever [r.test] is, and the test is not
    called: the only call recorded is the one of [match], so a test that
    would raise is never invoked. *)
Theorem apply_no_match {Node Path : Type} {res : Resources}
    (r : _Rule Node) (p : Path) (n : Node) (w : World Node) :
  rule_match r n = Ret false →
  (apply r p n w).1 = Ret None ∧
  calls (apply r p n w).2 = calls w ++ [CallMatch n] ∧
  (apply r p n w).2 = set_calls (λ l, l ++ [CallMatch n]) w.
Proof.
  intros Hm. rewrite apply_run, Hm. simpl. repeat split.
Qed.

Lemma apply_no_match_witness :
  rule_match {| rule_cls := ClsError; rule_match := Demo.is_body;
                rule_test := Demo.broken; rule_message := "m" |} Demo.div
  = Ret false ∧
  Demo.broken Demo.div = Raise (UserError "boom") ∧
  (apply (res := Demo.resources)
         {| rule_cls := ClsError; rule_match := Demo.is_body;
            rule_test := Demo.broken; rule_message := "m" |}
         "topic.htm" Demo.div Demo.fresh_install).1 = Ret None.
Proof.
  split; [reflexivity|]. split; [reflexivity|].
  apply (apply_no_match (res := Demo.resources)
           {| rule_cls := ClsError; rule_match := Demo.is_body;
              rule_test := Demo.broken; rule_message := "m" |}
           "topic.htm" Demo.div Demo.fresh_install).
  reflexivity.
Defined.

(** ** The registry and rule construction *)

Section RegistryFacts.
Context {Node : Type}.
Implicit Types (w : World Node) (rb : gmap string (list rule_ref)).

Lemma exec_stmt_run (s : toplevel Node) w :
  exec_stmt s w =
  match s with
  | RuleDecl c extensions m t msg =>
      (Ret tt, (__init__ c extensions m t msg w).2)
  | Throw e => (Raise e, w)
  end.
Proof.
  destruct s as [c extensions m t msg|e]; [|reflexivity].
  unfold exec_stmt, mbind, M_bind. rewrite init_run. reflexivity.
Qed.

(** Running declarations that never list [e] leaves the lookup of [e]
    as it was. *)
Lemma never_listed_lookup e (code : list (toplevel Node)) w :
  never_listed e code →
  _rulebook (for_ code exec_stmt w).2 !! e = _rulebook w !! e.
Proof.
  revert w. induction code as [|s code IH]; intros w Hn; [reflexivity|].
  apply Forall_cons in Hn as [Hs Hn].
  rewrite for_cons, exec_stmt_run.
  destruct s as [c extensions m t msg|ex]; [|reflexivity].
  rewrite IH by done. rewrite init_run. simpl.
  apply lookup_rulebook_after_other, Hs.
Qed.

(** The fold behind a sequence of [_addrule] calls. *)
Lemma register_all_run (regs : list (list string * rule_ref)) w :
  register_all regs w =
  (Ret tt,
   set_rulebook (λ rb, foldl (λ rb reg, rulebook_after reg.1 reg.2 rb) rb regs) w).
Proof.
  revert w. induction regs as [|reg regs IH]; intros w.
  - simpl. unfold mret, M_ret. f_equal. symmetry. apply set_rulebook_id.
  - unfold register_all. rewrite for_cons, addrule_run.
    fold (@register_all Node regs). rewrite IH. reflexivity.
Qed.

Lemma lookup_register_all (regs : list (list string * rule_ref)) rb e :
  foldl (λ rb reg, rulebook_after reg.1 reg.2 rb) rb regs !! e =
  match rb !! e, registered_under e regs with
  | None, [] => None
  | o, l => Some (default [] o ++ l)
  end.
Proof.
  revert rb. induction regs as [|[extensions r] regs IH]; intros rb.
  - simpl. destruct (rb !! e); simpl; [rewrite app_nil_r|]; reflexivity.
  - simpl foldl. rewrite IH, lookup_rulebook_after.
    unfold registered_under; simpl. fold (registered_under e regs).
    destruct (occurrences e extensions) as [|k]; [reflexivity|].
    simpl. rewrite <- app_assoc. simpl.
    destruct (rb !! e); reflexivity.
Qed.

End RegistryFacts.

(** C3. Constructing a rule with extensions [".htm"] and [".flsnp"]
    appends it to the sequence of each (creating the sequence when the
    extension was absent), so [getrules] finds it under both, and the
    sequence of [".fltoc"], if any, does not hold it.  An extension that
    no executed declaration lists, and that was absent before, is still
    looked up as [None]. *)
Theorem register_htm_flsnp {Node : Type} (c : rule_class)
    (m t : predicate Node) (msg : string) (w : World Node) :
  wf_refs w →
  let self := length (heap w) in
  let w' := (__init__ c [".htm"; ".flsnp"] m t msg w).2 in
  (__init__ c [".htm"; ".flsnp"] m t msg w).1 = Ret self ∧
  heap w' !! self = Some {| rule_cls := c; rule_match := m;
                            rule_test := t; rule_message := msg |} ∧
  (getrules ".htm" w').1
    = Ret (Some (default [] (_rulebook w !! ".htm") ++ [self])) ∧
  (getrules ".flsnp" w').1
    = Ret (Some (default [] (_rulebook w !! ".flsnp") ++ [self])) ∧
  (getrules ".fltoc" w').1 = (getrules ".fltoc" w).1 ∧
  (∀ l, (getrules ".fltoc" w').1 = Ret (Some l) → self ∉ l) ∧
  (∀ e (code : list (toplevel Node)) (w0 : World Node),
     _rulebook w0 !! e = None → never_listed e code →
     (getrules e (for_ code exec_stmt w0).2).1 = Ret None).
Proof.
  intros Hwf self w'. subst w'. rewrite init_run.
  unfold getrules, gets.
  cbn [fst snd _rulebook heap set_rulebook set_heap].
  rewrite !lookup_rulebook_after.
  change (occurrences ".htm" [".htm"; ".flsnp"]) with 1.
  change (occurrences ".flsnp" [".htm"; ".flsnp"]) with 1.
  change (occurrences ".fltoc" [".htm"; ".flsnp"]) with 0.
  cbn [replicate].
  repeat split.
  - subst self. rewrite lookup_app_r, Nat.sub_diag by lia. reflexivity.
  - intros l [= Hl] Hin. apply (Hwf _ _ _ Hl) in Hin. subst self. lia.
  - intros e code w0 H0 Hn. rewrite never_listed_lookup, H0 by done.
    reflexivity.
Qed.

Lemma register_htm_flsnp_witness :
  wf_refs (Demo.fresh_install) ∧
  (getrules ".htm"
     (__init__ ClsError [".htm"; ".flsnp"] Demo.is_body Demo.has_h1 "m"
        Demo.fresh_install).2).1 = Ret (Some [0]) ∧
  (getrules ".flsnp"
     (__init__ ClsError [".htm"; ".flsnp"] Demo.is_body Demo.has_h1 "m"
        Demo.fresh_install).2).1 = Ret (Some [0]).
Proof.
  assert (Hwf : wf_refs Demo.fresh_install).
  { intros e l r Hl. simpl in Hl. rewrite lookup_empty in Hl. discriminate. }
  split; [exact Hwf|].
  pose proof (register_htm_flsnp ClsError Demo.is_body Demo.has_h1 "m"
                Demo.fresh_install Hwf) as (_ & _ & Hhtm & Hflsnp & _).
  split; [exact Hhtm | exact Hflsnp].
Defined.

(** With an empty extensions list, and with predicates that are not
    callable, construction does not raise; the rule built with no
    extension is found under no extension. *)
Lemma construction_validates_counterexample :
  is_raise (Error [] Demo.is_body Demo.has_h1 "m" Demo.fresh_install).1 = false ∧
  _rulebook (Error [] Demo.is_body Demo.has_h1 "m" Demo.fresh_install).2 = ∅ ∧
  is_raise (Error [".htm"] (not_callable (Node := Demo.node)) not_callable "m"
              Demo.fresh_install).1 = false.
Proof. repeat split. Qed.

(** C6, amended. Rule construction checks nothing about its arguments:
    for every extensions list, match, test and message it returns the
    new object, whose attributes are the arguments as given, registered
    once per listed extension; with an empty extensions list it returns
    as well and leaves the registry as it was.  A match that is not
    callable raises only when [apply] calls it. *)
Theorem construction_never_validates {Node Path : Type} {res : Resources}
    (c : rule_class) (extensions : list string) (m t : predicate Node)
    (msg : string) (w : World Node) :
  (__init__ c extensions m t msg w).1 = Ret (length (heap w)) ∧
  heap (__init__ c extensions m t msg w).2
    = heap w ++ [{| rule_cls := c; rule_match := m; rule_test := t;
                    rule_message := msg |}] ∧
  _rulebook (__init__ c extensions m t msg w).2
    = rulebook_after extensions (length (heap w)) (_rulebook w) ∧
  _rulebook (__init__ c [] m t msg w).2 = _rulebook w ∧
  (∀ (p : Path) (n : Node),
     (apply {| rule_cls := c; rule_match := not_callable; rule_test := t;
               rule_message := msg |} p n w).1 = Raise TypeError).
Proof.
  rewrite !init_run. repeat split.
Qed.

(** C10. When the extensions list given at construction names the same
    extension more than once, the new rule is appended to that
    extension's sequence once per occurrence: after construction the
    lookup of [e] is the old sequence followed by as many copies of the
    reference to the new rule as [e] has occurrences. *)
Theorem duplicate_extension_appends_per_occurrence {Node : Type}
    (c : rule_class) (extensions : list string) (m t : predicate Node)
    (msg : string) (w : World Node) (e : string) :
  (getrules e (__init__ c extensions m t msg w).2).1 =
  Ret (match occurrences e extensions with
       | 0 => _rulebook w !! e
       | S k => Some (default [] (_rulebook w !! e)
                        ++ replicate (S k) (length (heap w)))
       end).
Proof.
  rewrite init_run. unfold getrules, gets.
  cbn [fst snd _rulebook heap set_rulebook set_heap].
  rewrite lookup_rulebook_after. reflexivity.
Qed.

Example duplicate_extension_twice :
  (getrules ".htm"
     (Error [".htm"; ".htm"] Demo.is_body Demo.has_h1 "m"
            Demo.fresh_install).2).1 = Ret (Some [0; 0]).
Proof. reflexivity. Qed.

(** C8. For every extension the registry keeps insertion order: after
    any sequence of [_addrule] calls, the lookup of [e] is the sequence
    that was there before followed by the rules registered under [e], in
    the order of the calls; and a single call only appends to what was
    there. *)
Theorem registration_order_preserved {Node : Type}
    (regs : list (list string * rule_ref)) (e : string) (w : World Node) :
  (register_all regs w).1 = Ret tt ∧
  (getrules e (register_all regs w).2).1 =
    Ret (match _rulebook w !! e, registered_under e regs with
         | None, [] => None
         | o, l => Some (default [] o ++ l)
         end) ∧
  (∀ extensions (r : rule_ref),
     default [] (_rulebook (_addrule extensions r w).2 !! e) =
     default [] (_rulebook w !! e) ++ replicate (occurrences e extensions) r).
Proof.
  rewrite register_all_run. unfold getrules, gets.
  cbn [fst snd _rulebook set_rulebook].
  rewrite lookup_register_all. repeat split.
  intros extensions r. rewrite addrule_run.
  cbn [fst snd _rulebook set_rulebook].
  rewrite lookup_rulebook_after.
  destruct (occurrences e extensions); [|reflexivity].
  simpl. rewrite app_nil_r. reflexivity.
Qed.

Example registration_order_demo :
  (getrules ".htm"
     (register_all [([".htm"; ".flsnp"], 2); ([".fltoc"], 0); ([".htm"], 1)]
        Demo.fresh_install).2).1 = Ret (Some [2; 1]).
Proof. reflexivity. Qed.

(** ** Which names the loader enumerates *)

Section Patterns.
Import fnmatch.








End Patterns.

Section Enumeration.
Context {Node : Type} {hst : Host}.
Implicit Types (w : World Node) (name : string).



Lemma nt_normchar_underscore c : ospath.nt_normchar c = "_"%char ↔ c = "_"%char.
Proof.
  split; [|intros ->; reflexivity].
  destruct c as [[] [] [] [] [] [] [] []]; vm_compute; congruence.
Qed.



(** Membership in the result of [glob._glob1] for the module pattern. *)
Lemma elem_of_glob1 os (names : list string) name :
  name ∈ glob._glob1 os names _RULE_MODULE_PATTERN ↔
  name ∈ names ∧ glob._ishidden name = false ∧
  fnmatch.fnmatch os name _RULE_MODULE_PATTERN = true.
Proof.
  unfold glob._glob1.
  change (glob._ishidden _RULE_MODULE_PATTERN) with false.
  cbv iota. rewrite !list_elem_of_In, !filter_In, negb_true_iff. tauto.
Qed.




Lemma elem_of_listdir_names (entries : gmap string (dirent Node)) name :
  name ∈ (map_to_list entries).*1 ↔ is_Some (entries !! name).
Proof.
  rewrite list_elem_of_fmap. split.
  - intros ([k v] & -> & Hin). apply elem_of_map_to_list in Hin. eauto.
  - intros [v Hv]. exists (name, v). split; [done|].
    by apply elem_of_map_to_list.
Qed.

(** What the glob over a directory returns. *)
Lemma glob_glob_run d pattern w :
  glob_glob d pattern w =
  (Ret (glob._glob1 host_os
          match fs w !! d with
          | Some (FsDir entries) => (map_to_list entries).*1
          | _ => []
          end pattern), w).
Proof. reflexivity. Qed.

Lemma elem_of_glob_modules d name w :
  name ∈ glob._glob1 host_os
           match fs w !! d with
           | Some (FsDir entries) => (map_to_list entries).*1
           | _ => []
           end _RULE_MODULE_PATTERN ↔
  (∃ entries, fs w !! d = Some (FsDir entries) ∧ is_Some (entries !! name)) ∧
  eligible name = true.
Proof.
  rewrite elem_of_glob1. unfold eligible.
  rewrite bool_decide_eq_true, elem_of_glob1, list_elem_of_singleton.
  destruct (fs w !! d) as [[|entries]|].
  - rewrite elem_of_nil. split; [tauto|]. intros [(? & ? & _) _]. done.
  - rewrite elem_of_listdir_names. split.
    + intros (Hin & Hh & Hf). eauto 10.
    + intros [(entries' & [= <-] & Hin) (_ & Hh & Hf)]. eauto.
  - rewrite elem_of_nil. split; [tauto|]. intros [(? & ? & _) _]. done.
Qed.

End Enumeration.

(** ** Invariants of the registry *)

Section Preservation.
Context {Node : Type} {res : Resources} {hst : Host}.
Implicit Types (w : World Node) (P : World Node → Prop).

Lemma preserves_ret {A} P (a : A) : preserves P (mret a).
Proof. intros w Hw. exact Hw. Qed.

Lemma preserves_raise {A} P e : preserves P (raise (A := A) e).
Proof. intros w Hw. exact Hw. Qed.

Lemma preserves_gets {A} P (f : World Node → A) : preserves P (gets f).
Proof. intros w Hw. exact Hw. Qed.

Lemma preserves_bind {A B} P (m : M Node A) (k : A → M Node B) :
  preserves P m → (∀ a, preserves P (k a)) → preserves P (m ≫= k).
Proof.
  intros Hm Hk w Hw. unfold mbind, M_bind.
  specialize (Hm w Hw). destruct (m w) as [[a|e] w1]; simpl in *.
  - by apply Hk.
  - done.
Qed.

Lemma preserves_for {A} P (l : list A) (body : A → M Node ()) :
  (∀ x, preserves P (body x)) → preserves P (for_ l body).
Proof.
  intros Hb. induction l as [|x l IH]; simpl.
  - apply preserves_ret.
  - apply preserves_bind; [apply Hb | intros _; apply IH].
Qed.

Lemma preserves_if {A} P (b : bool) (m1 m2 : M Node A) :
  preserves P m1 → preserves P m2 → preserves P (if b then m1 else m2).
Proof. destruct b; done. Qed.

Lemma preserves_print P line : registry_only P → preserves P (print line).
Proof. intros HP w Hw. by apply (HP w). Qed.

Lemma preserves_makedirs P d : registry_only P → preserves P (makedirs d).
Proof.
  intros HP w Hw. unfold makedirs.
  destruct (fs w !! d) as [[|?]|]; simpl; try done. by apply (HP w).
Qed.

Lemma preserves_shutil_copy P srcdir name dst :
  registry_only P → preserves P (shutil_copy srcdir name dst).
Proof.
  intros HP w Hw. unfold shutil_copy.
  repeat (case_match; simpl; try done); by apply (HP w).
Qed.

Lemma preserves_environ_get P key : preserves P (environ_get key).
Proof. intros w Hw. unfold environ_get. by case_match. Qed.

Lemma preserves_has_rules P user : preserves P (has_rules user).
Proof.
  unfold has_rules, isdir, glob_glob, listdir.
  apply preserves_bind; [apply preserves_gets|]. intros d.
  apply preserves_if; [|apply preserves_ret].
  repeat (apply preserves_bind; [try apply preserves_gets | intros ?]);
    apply preserves_ret.
Qed.

(** [_check] leaves the registry and the heap alone. *)
Lemma preserves_check P user default verbose :
  registry_only P → preserves P (_check user default verbose).
Proof.
  intros HP. unfold _check.
  apply preserves_bind; [apply preserves_has_rules | intros ok].
  apply preserves_bind.
  - apply preserves_if; [|apply preserves_ret].
    apply preserves_bind;
      [apply preserves_if; [by apply preserves_print | apply preserves_ret]|].
    intros _. apply preserves_bind; [by apply preserves_makedirs | intros _].
    unfold glob_glob, listdir.
    repeat (apply preserves_bind; [try apply preserves_gets | intros ?]);
      try apply preserves_ret.
    apply preserves_for. intros src. by apply preserves_shutil_copy.
  - intros _. apply preserves_bind; [apply preserves_gets | intros d].
    apply preserves_if; [apply preserves_ret | apply preserves_raise].
Qed.

Lemma preserves_exec_stmt P (s : toplevel Node) :
  (∀ c extensions m t msg, preserves P (__init__ c extensions m t msg)) →
  preserves P (exec_stmt s).
Proof.
  intros Hi. destruct s as [c extensions m t msg|e]; simpl.
  - apply preserves_bind; [apply Hi | intros _; apply preserves_ret].
  - apply preserves_raise.
Qed.

Lemma preserves_exec_module P dir name :
  (∀ c extensions m t msg, preserves P (__init__ c extensions m t msg)) →
  preserves P (exec_module dir name).
Proof.
  intros Hi w Hw. unfold exec_module.
  repeat (case_match; simpl; try done).
  apply preserves_for; [|done]. intros s. by apply preserves_exec_stmt.
Qed.

(** [load] changes the registry and the heap through rule construction
    only. *)
Lemma preserves_load P verbose :
  registry_only P →
  (∀ c extensions m t msg, preserves P (__init__ c extensions m t msg)) →
  preserves P (load verbose).
Proof.
  intros HP Hi. unfold load.
  apply preserves_bind; [apply preserves_environ_get | intros appdata].
  apply preserves_bind; [by apply preserves_check | intros _].
  apply preserves_bind;
    [apply preserves_if; [by apply preserves_print | apply preserves_ret]|].
  intros _. unfold glob_glob, listdir.
  repeat (apply preserves_bind; [try apply preserves_gets | intros ?]);
    try apply preserves_ret.
  - apply preserves_for. intros f.
    apply preserves_bind;
      [apply preserves_if; [by apply preserves_print | apply preserves_ret]|].
    intros _. by apply preserves_exec_module.
  - case_match; [apply preserves_raise | apply preserves_ret].
Qed.

End Preservation.

Section Invariants.
Context {Node : Type} {res : Resources} {hst : Host}.
Implicit Types (w : World Node).

Lemma no_empty_seq_registry_only : registry_only (no_empty_seq (Node := Node)).
Proof. intros w w' Hrb _ Hw e l. rewrite Hrb. apply Hw. Qed.

Lemma wf_refs_registry_only : registry_only (wf_refs (Node := Node)).
Proof. intros w w' Hrb Hh Hw e l r. rewrite Hrb, Hh. apply Hw. Qed.

Lemma no_empty_seq_initial env files : no_empty_seq (initial (Node := Node) env files).
Proof. intros e l Hl. simpl in Hl. by rewrite lookup_empty in Hl. Qed.

Lemma wf_refs_initial env files : wf_refs (initial (Node := Node) env files).
Proof. intros e l r Hl. simpl in Hl. by rewrite lookup_empty in Hl. Qed.

(** A registration never leaves an empty sequence behind. *)
Lemma no_empty_seq_addrule extensions (r : rule_ref) :
  preserves (no_empty_seq (Node := Node)) (_addrule extensions r).
Proof.
  intros w Hw e l. rewrite addrule_run.
  cbn [fst snd _rulebook set_rulebook].
  rewrite lookup_rulebook_after.
  destruct (occurrences e extensions) as [|k]; [apply Hw|].
  intros [= <-]. simpl. intros Hnil.
  apply app_eq_nil in Hnil as [_ Hnil]. discriminate.
Qed.

Lemma wf_refs_addrule extensions (r : rule_ref) w :
  r < length (heap w) → wf_refs w → wf_refs (_addrule extensions r w).2.
Proof.
  intros Hr Hw e l r'. rewrite addrule_run.
  cbn [fst snd _rulebook heap set_rulebook].
  rewrite lookup_rulebook_after.
  destruct (occurrences e extensions) as [|k]; [apply Hw|].
  intros [= <-]. rewrite elem_of_app. intros [Hin|Hin].
  - destruct (_rulebook w !! e) as [l0|] eqn:El; simpl in Hin.
    + by apply (Hw e l0).
    + by apply elem_of_nil in Hin.
  - change (r :: replicate k r) with (replicate (S k) r) in Hin.
    apply elem_of_replicate in Hin as [-> _]. done.
Qed.

Lemma no_empty_seq_init c extensions (m t : predicate Node) msg :
  preserves no_empty_seq (__init__ c extensions m t msg).
Proof.
  intros w Hw. rewrite init_run. cbn [snd].
  set (w1 := set_heap _ w).
  pose proof (no_empty_seq_addrule extensions (length (heap w)) w1) as Ha.
  rewrite addrule_run in Ha. apply Ha.
  intros e l Hl. exact (Hw e l Hl).
Qed.

Lemma wf_refs_init c extensions (m t : predicate Node) msg :
  preserves wf_refs (__init__ c extensions m t msg).
Proof.
  intros w Hw. rewrite init_run. cbn [snd].
  set (w1 := set_heap _ w).
  pose proof (wf_refs_addrule extensions (length (heap w)) w1) as Ha.
  rewrite addrule_run in Ha. apply Ha.
  - subst w1. simpl. rewrite length_app. simpl. lia.
  - intros e l r Hl Hin. subst w1. simpl in *. rewrite length_app.
    specialize (Hw e l r Hl Hin). lia.
Qed.

(** Both invariants hold in every state the module can reach. *)
Lemma reachable_invariants w : reachable w → no_empty_seq w ∧ wf_refs w.
Proof.
  induction 1 as [env files|c extensions m t msg w _ [IH1 IH2]
                 |extensions r w _ [IH1 IH2] Hr|verbose w _ [IH1 IH2]
                 |w w' _ [IH1 IH2] Hrb Hh].
  - split; [apply no_empty_seq_initial | apply wf_refs_initial].
  - split; [by apply no_empty_seq_init | by apply wf_refs_init].
  - split; [by apply no_empty_seq_addrule | by apply wf_refs_addrule].
  - split.
    + apply preserves_load; [apply no_empty_seq_registry_only| |done].
      intros; apply no_empty_seq_init.
    + apply preserves_load; [apply wf_refs_registry_only| |done].
      intros; apply wf_refs_init.
  - split.
    + by apply (no_empty_seq_registry_only w).
    + by apply (wf_refs_registry_only w).
Qed.

End Invariants.

(** C9. The registry never maps an extension to an empty sequence: in
    every reachable state, [getrules e] is [None] or a sequence with at
    least one rule, and it is so again after any further
    registration. *)
Theorem no_extension_maps_to_empty {Node : Type} {res : Resources} {hst : Host}
    (w : World Node) (e : string) :
  reachable w →
  ((getrules e w).1 = Ret None ∨
   ∃ r l, (getrules e w).1 = Ret (Some (r :: l))) ∧
  (∀ extensions (r : rule_ref),
     (getrules e (_addrule extensions r w).2).1 = Ret None ∨
     ∃ r' l, (getrules e (_addrule extensions r w).2).1 = Ret (Some (r' :: l))).
Proof.
  intros Hr. apply reachable_invariants in Hr as [Hne _].
  assert (Hshape : ∀ w' : World Node, no_empty_seq w' →
            (getrules e w').1 = Ret None ∨
            ∃ r l, (getrules e w').1 = Ret (Some (r :: l))).
  { intros w' Hw'. unfold getrules, gets; simpl.
    destruct (_rulebook w' !! e) as [[|r l]|] eqn:El; eauto.
    by destruct (Hw' e [] El). }
  split; [by apply Hshape|].
  intros extensions r. apply Hshape. by apply no_empty_seq_addrule.
Qed.

Lemma no_extension_maps_to_empty_witness :
  reachable (res := Demo.resources) (hst := Demo.host) Demo.loaded ∧
  ((getrules ".htm" Demo.loaded).1 = Ret None ∨
   ∃ r l, (getrules ".htm" Demo.loaded).1 = Ret (Some (r :: l))).
Proof.
  assert (Hr : reachable (res := Demo.resources) (hst := Demo.host) Demo.loaded).
  { apply reach_load, reach_initial. }
  split; [exact Hr|].
  apply (no_extension_maps_to_empty (res := Demo.resources) (hst := Demo.host)
           Demo.loaded ".htm" Hr).
Defined.

(** ** Enumeration of rule-source files *)




(** ** The loader's postcondition *)

Section LoadOutcome.
Context {Node : Type} {res : Resources} {hst : Host}.
Implicit Types (w : World Node).

(** A statement cannot return normally in a state with an empty
    registry when everything after its first part cannot. *)
Lemma raises_on_empty_bind {A B} (m : M Node A) (k : A → M Node B) w :
  (∀ a w1, _rulebook (k a w1).2 = ∅ → is_raise (k a w1).1 = true) →
  _rulebook ((m ≫= k) w).2 = ∅ → is_raise ((m ≫= k) w).1 = true.
Proof.
  intros Hk. unfold mbind, M_bind.
  destruct (m w) as [[a|e] w1]; [apply Hk | reflexivity].
Qed.

(** The final [assert _rulebook]. *)
Lemma assert_rulebook_run w :
  (rb ← gets _rulebook;
   if decide (rb = ∅) then raise AssertionError else mret ()) w
  = if decide (_rulebook w = ∅) then (Raise AssertionError, w) else (Ret (), w).
Proof.
  unfold mbind, M_bind, gets, raise, mret, M_ret.
  destruct (decide (_rulebook w = ∅)); reflexivity.
Qed.

Lemma load_raises_on_empty verbose w :
  _rulebook (load verbose w).2 = ∅ → is_raise (load verbose w).1 = true.
Proof.
  unfold load.
  do 4 (apply raises_on_empty_bind; intros ? ?).
  apply raises_on_empty_bind; intros _ wend.
  rewrite assert_rulebook_run.
  destruct (decide (_rulebook wend = ∅)); [reflexivity | done].
Qed.

(** With nothing to execute, [load] stops at its final assertion when
    the registry is empty. *)
Lemma load_no_modules verbose w appdata w1 :
  environ w !! "APPDATA" = Some appdata →
  _check (path_join appdata "FlareLint") (path_join module_dir "rules")
         verbose w = (Ret (), w1) →
  (glob_glob (path_join appdata "FlareLint") _RULE_MODULE_PATTERN w1).1 = Ret [] →
  _rulebook w1 = ∅ →
  (load verbose w).1 = Raise AssertionError.
Proof.
  intros Henv Hcheck Hglob Hrb.
  rewrite glob_glob_run in Hglob. injection Hglob as Hglob.
  unfold load. unfold mbind at 1, M_bind at 1, environ_get. rewrite Henv.
  unfold mbind at 1, M_bind at 1. rewrite Hcheck.
  destruct verbose.
  - unfold mbind at 1, M_bind at 1, print, modify.
    unfold mbind at 1, M_bind at 1. rewrite glob_glob_run.
    cbn [fs set_stdout]. rewrite Hglob.
    unfold mbind at 1, M_bind at 1. cbn [for_ mret M_ret].
    rewrite assert_rulebook_run. cbn [_rulebook set_stdout].
    rewrite decide_True by done. reflexivity.
  - unfold mbind at 1, M_bind at 1, mret at 1, M_ret at 1.
    unfold mbind at 1, M_bind at 1. rewrite glob_glob_run, Hglob.
    unfold mbind at 1, M_bind at 1. cbn [for_ mret M_ret].
    rewrite assert_rulebook_run.
    rewrite decide_True by done. reflexivity.
Qed.

(** When everything before the final assertion completes, the outcome
    of [load] is decided by the registry alone. *)
Lemma load_after_modules verbose w appdata w1 w3 :
  environ w !! "APPDATA" = Some appdata →
  _check (path_join appdata "FlareLint") (path_join module_dir "rules")
         verbose w = (Ret (), w1) →
  (rulemodules ← glob_glob (path_join appdata "FlareLint") _RULE_MODULE_PATTERN;
   for_ rulemodules (λ modulefile,
     (if verbose then print ("  " +:+ modulefile) else mret ());;
     exec_module (path_join appdata "FlareLint") modulefile))
    ((if verbose
      then print (PROGRESS_RULES_LOAD_format (path_join appdata "FlareLint"))
      else mret ()) w1).2 = (Ret (), w3) →
  load verbose w =
  if decide (_rulebook w3 = ∅) then (Raise AssertionError, w3) else (Ret (), w3).
Proof.
  intros Henv Hcheck Hloop.
  unfold load. unfold mbind at 1, M_bind at 1, environ_get. rewrite Henv.
  unfold mbind at 1, M_bind at 1. rewrite Hcheck.
  unfold mbind at 1, M_bind at 1.
  destruct ((if verbose
             then print (PROGRESS_RULES_LOAD_format (path_join appdata "FlareLint"))
             else mret ()) w1) as [[[]|e] w2] eqn:Epr;
    [|destruct verbose; discriminate].
  cbn [snd] in Hloop.
  unfold mbind at 1, M_bind at 1.
  unfold mbind at 1, M_bind at 1 in Hloop.
  destruct (glob_glob (path_join appdata "FlareLint") _RULE_MODULE_PATTERN w2)
    as [[names|e] w2'] eqn:Eg; [|discriminate].
  unfold mbind at 1, M_bind at 1. rewrite Hloop.
  apply assert_rulebook_run.
Qed.

End LoadOutcome.

(** C4. Once [load] has gone through the rule-source files, an empty
    registry makes it raise instead of returning: whenever the registry
    is empty when [load] ends, [load] has raised; when the bootstrap
    check succeeded and the enumeration gives no eligible file, the
    exception is the [AssertionError] of the final check; and so it is
    whenever every eligible file has been executed without error. *)
Theorem load_requires_rules {Node : Type} {res : Resources} {hst : Host}
    (verbose : bool) (w : World Node) :
  _rulebook (load verbose w).2 = ∅ →
  is_raise (load verbose w).1 = true ∧
  (∀ appdata w1,
     environ w !! "APPDATA" = Some appdata →
     _check (path_join appdata "FlareLint") (path_join module_dir "rules")
            verbose w = (Ret (), w1) →
     (glob_glob (path_join appdata "FlareLint") _RULE_MODULE_PATTERN w1).1
       = Ret [] →
     (load verbose w).1 = Raise AssertionError) ∧
  (∀ appdata w1 w3,
     environ w !! "APPDATA" = Some appdata →
     _check (path_join appdata "FlareLint") (path_join module_dir "rules")
            verbose w = (Ret (), w1) →
     (rulemodules ← glob_glob (path_join appdata "FlareLint")
                      _RULE_MODULE_PATTERN;
      for_ rulemodules (λ modulefile,
        (if verbose then print ("  " +:+ modulefile) else mret ());;
        exec_module (path_join appdata "FlareLint") modulefile))
       ((if verbose
         then print (PROGRESS_RULES_LOAD_format (path_join appdata "FlareLint"))
         else mret ()) w1).2 = (Ret (), w3) →
     load verbose w = (Raise AssertionError, w3)).
Proof.
  intros Hempty. split; [by apply load_raises_on_empty|].
  split; cycle 1.
  { intros appdata w1 w3 Henv Hcheck Hloop.
    pose proof (load_after_modules _ _ _ _ _ Henv Hcheck Hloop) as Hrun.
    rewrite Hrun in Hempty |- *.
    destruct (decide (_rulebook w3 = ∅)); [reflexivity | done]. }
  intros appdata w1 Henv Hcheck Hglob.
  assert (Hrb : _rulebook w1 = _rulebook w).
  { change w1 with (Ret (), w1).2. rewrite <- Hcheck.
    apply (preserves_check (λ w', _rulebook w' = _rulebook w)); [|done].
    intros w2 w3 E _ Hw2. by rewrite E. }
  destruct (decide (_rulebook w1 = ∅)) as [Hnil|Hnn].
  { by apply (load_no_modules verbose w appdata w1). }
  exfalso. apply Hnn. rewrite Hrb.
  (* the registry only grows, so it was empty before as well *)
  destruct (decide (_rulebook w = ∅)) as [|Hw]; [done|].
  exfalso. revert Hempty.
  apply (preserves_load (λ w', _rulebook w' ≠ ∅) verbose); [| |done].
  - intros w2 w3 E _ Hw2. by rewrite E.
  - intros c extensions m t msg w2 Hw2. rewrite init_run.
    cbn [snd _rulebook set_rulebook set_heap].
    apply map_choose in Hw2 as (e & l & Hl).
    intros Hnil. pose proof (lookup_rulebook_after extensions
      (length (heap w2)) (_rulebook w2) e) as Hlk.
    rewrite Hnil, lookup_empty, Hl in Hlk.
    by destruct (occurrences e extensions).
Qed.

Lemma load_requires_rules_witness :
  _rulebook (load (res := Demo.resources) (hst := Demo.host) true
               Demo.no_defaults).2 = ∅ ∧
  is_raise (load (res := Demo.resources) (hst := Demo.host) true
              Demo.no_defaults).1 = true.
Proof.
  assert (He : _rulebook (load (res := Demo.resources) (hst := Demo.host) true
                            Demo.no_defaults).2 = ∅) by (vm_compute; reflexivity).
  split; [exact He|].
  apply (load_requires_rules (res := Demo.resources) (hst := Demo.host) true
           Demo.no_defaults He).
Defined.

Example load_no_defaults_fails :
  (load (res := Demo.resources) (hst := Demo.host) true Demo.no_defaults).1
  = Raise AssertionError.
Proof. vm_compute. reflexivity. Qed.

(** ** The bootstrap check *)

Section Bootstrap.
Context {Node : Type} {res : Resources} {hst : Host}.
Implicit Types (w : World Node) (name : string).

(** The guard of [_check] reads the state and leaves it as it is. *)
Lemma has_rules_run user w :
  has_rules user w =
  (Ret match fs w !! user with
       | Some (FsDir entries) =>
           negb (bool_decide
                   (glob._glob1 host_os (map_to_list entries).*1
                      _RULE_MODULE_PATTERN = []))
       | _ => false
       end, w).
Proof.
  unfold has_rules, isdir, glob_glob, listdir, mbind, M_bind, gets, mret, M_ret.
  destruct (fs w !! user) as [[|entries]|] eqn:Efs; try reflexivity.
  rewrite Efs. reflexivity.
Qed.

(** The guard holds exactly when the user directory exists and has an
    eligible entry. *)
Lemma has_rules_true user w :
  (has_rules user w).1 = Ret true ↔
  ∃ entries name, fs w !! user = Some (FsDir entries) ∧
                  is_Some (entries !! name) ∧ eligible name = true.
Proof.
  rewrite has_rules_run. simpl. split.
  - intros [= Hg]. destruct (fs w !! user) as [[|entries]|] eqn:Efs; try done.
    apply negb_true_iff, bool_decide_eq_false in Hg.
    destruct (glob._glob1 host_os (map_to_list entries).*1 _RULE_MODULE_PATTERN)
      as [|name l] eqn:Eg; [done|].
    assert (Hin : name ∈ glob._glob1 host_os (map_to_list entries).*1
                           _RULE_MODULE_PATTERN) by (rewrite Eg; left).
    pose proof (elem_of_glob_modules user name w) as Hm.
    rewrite Efs in Hm. apply Hm in Hin as [(entries' & [= <-] & Hs) He].
    eauto.
  - intros (entries & name & Efs & Hs & He).
    pose proof (elem_of_glob_modules user name w) as Hm.
    rewrite Efs in *. f_equal. apply negb_true_iff, bool_decide_eq_false.
    intros Hnil. rewrite Hnil in Hm.
    assert (Hin : name ∈ @nil string) by (apply Hm; eauto).
    by apply elem_of_nil in Hin.
Qed.

(** When the guard holds, [_check] does nothing at all. *)
Lemma check_populated user default verbose w :
  (has_rules user w).1 = Ret true →
  _check user default verbose w = (Ret (), w).
Proof.
  intros Hg. unfold _check. unfold mbind at 1, M_bind at 1.
  rewrite has_rules_run in *. simpl in Hg. injection Hg as Hg.
  destruct (fs w !! user) as [[|entries]|] eqn:Efs; try done.
  rewrite Hg. simpl.
  unfold mbind, M_bind, mret, M_ret, isdir, gets. simpl.
  rewrite Efs. reflexivity.
Qed.

(** One [shutil.copy] inside the loop of [_check]. *)
Lemma shutil_copy_ret default user src w w' dents uents :
  fs w !! default = Some (FsDir dents) →
  fs w !! user = Some (FsDir uents) →
  shutil_copy default src user w = (Ret (), w') →
  default ≠ user ∧
  ∃ code, dents !! src = Some (EFile code) ∧
          w' = set_fs <[user := FsDir (<[src := EFile code]> uents)]> w.
Proof.
  intros Hd Hu. unfold shutil_copy. rewrite Hd.
  destruct (dents !! src) as [[code|]|]; try discriminate.
  rewrite Hu. destruct (decide (default = user)); [discriminate|].
  destruct (uents !! src) as [[|]|]; try discriminate;
    intros [= <-]; eauto.
Qed.

(** The copy loop: when it completes, every listed name is a regular
    file of the defaults directory and the user directory holds the same
    file under the same name; other entries of the user directory are
    as before. *)
Lemma copy_loop default user dents (srcs : list string) : ∀ uents w w',
  fs w !! default = Some (FsDir dents) →
  fs w !! user = Some (FsDir uents) →
  for_ srcs (λ src, shutil_copy default src user) w = (Ret (), w') →
  ∃ uents', fs w' !! user = Some (FsDir uents') ∧
    (∀ name, name ∈ srcs →
       ∃ code, dents !! name = Some (EFile code) ∧
               uents' !! name = Some (EFile code)) ∧
    (∀ name, name ∉ srcs → uents' !! name = uents !! name).
Proof.
  induction srcs as [|src srcs IH]; intros uents w w' Hd Hu Hrun.
  - injection Hrun as <-. exists uents. split; [done|]. split; [|done].
    intros name Hin. by apply elem_of_nil in Hin.
  - rewrite for_cons in Hrun.
    destruct (shutil_copy default src user w) as [[[]|e] w1] eqn:Ecopy;
      [|discriminate].
    apply (shutil_copy_ret _ _ _ _ _ dents uents) in Ecopy
      as (Hne & code & Hsrc & ->); [|done..].
    apply (IH (<[src := EFile code]> uents)) in Hrun
      as (uents' & Hu' & Hcopied & Hkept).
    + exists uents'. split; [done|]. split.
      * intros name Hin. destruct (decide (name ∈ srcs)) as [|Hnot]; [eauto|].
        apply elem_of_cons in Hin as [->|]; [|done].
        exists code. split; [done|].
        rewrite (Hkept _ Hnot). apply lookup_insert_eq.
      * intros name Hnot. apply not_elem_of_cons in Hnot as [Hne' Hnot].
        rewrite (Hkept _ Hnot). by apply lookup_insert_ne.
    + simpl. by rewrite lookup_insert_ne.
    + simpl. by rewrite lookup_insert_eq.
Qed.

Lemma glob1_nil os pattern : glob._glob1 os [] pattern = [].
Proof. unfold glob._glob1. by destruct (glob._ishidden pattern). Qed.

(** The body of the [if] in [_check], after the optional progress
    line: when it completes, the user directory exists and holds every
    file the glob over the defaults directory listed. *)
Lemma seed_block_ret user default w0 w2 :
  (makedirs user;;
   srcs ← glob_glob default "*.py";
   for_ srcs (λ src, shutil_copy default src user)) w0 = (Ret (), w2) →
  ∃ uents', fs w2 !! user = Some (FsDir uents') ∧
    ∀ name,
      name ∈ glob._glob1 host_os
               match fs w0 !! default with
               | Some (FsDir entries) => (map_to_list entries).*1
               | _ => []
               end "*.py" →
      ∃ dents code, fs w0 !! default = Some (FsDir dents) ∧
                    dents !! name = Some (EFile code) ∧
                    uents' !! name = Some (EFile code).
Proof.
  unfold mbind at 1, M_bind at 1, makedirs.
  destruct (fs w0 !! user) as [[|uents]|] eqn:Eu; [discriminate| |].
  - (* the directory is there already *)
    unfold mbind, M_bind. rewrite glob_glob_run.
    destruct (fs w0 !! default) as [[|dents]|] eqn:Ed.
    + rewrite glob1_nil. intros [= <-]. exists uents. split; [done|].
      intros name Hin. by apply elem_of_nil in Hin.
    + intros Hloop.
      apply (copy_loop _ _ dents _ uents) in Hloop
        as (uents' & Hu' & Hcopied & _); [|done..].
      exists uents'. split; [done|]. intros name Hin.
      destruct (Hcopied name Hin) as (code & ? & ?). eauto.
    + rewrite glob1_nil. intros [= <-]. exists uents. split; [done|].
      intros name Hin. by apply elem_of_nil in Hin.
  - (* the directory is created, empty *)
    unfold mbind, M_bind. rewrite glob_glob_run. cbn [fs set_fs].
    destruct (decide (default = user)) as [->|Hne].
    + rewrite lookup_insert_eq, Eu, map_to_list_empty. simpl.
      rewrite glob1_nil. intros [= <-]. exists ∅.
      split; [apply lookup_insert_eq|].
      intros name Hin. by apply elem_of_nil in Hin.
    + rewrite lookup_insert_ne by done.
      destruct (fs w0 !! default) as [[|dents]|] eqn:Ed.
      * rewrite glob1_nil. intros [= <-]. exists ∅.
        split; [apply lookup_insert_eq|].
        intros name Hin. by apply elem_of_nil in Hin.
      * intros Hloop.
        apply (copy_loop _ _ dents _ ∅) in Hloop
          as (uents' & Hu' & Hcopied & _).
        -- exists uents'. split; [done|]. intros name Hin.
           destruct (Hcopied name Hin) as (code & ? & ?). eauto.
        -- simpl. by rewrite lookup_insert_ne.
        -- simpl. by rewrite lookup_insert_eq.
      * rewrite glob1_nil. intros [= <-]. exists ∅.
        split; [apply lookup_insert_eq|].
        intros name Hin. by apply elem_of_nil in Hin.
Qed.




End Bootstrap.



Example bootstrap_fresh_install :
  let first := _check (res := Demo.resources) (hst := Demo.host)
                 Demo.userpath Demo.defaultpath true Demo.fresh_install in
  first.1 = Ret () ∧
  (has_rules (hst := Demo.host) Demo.userpath Demo.fresh_install).1 = Ret false ∧
  (glob_glob (hst := Demo.host) Demo.userpath _RULE_MODULE_PATTERN first.2).1
    = Ret ["topic_rules.py"] ∧
  (_check (res := Demo.resources) (hst := Demo.host)
     Demo.userpath Demo.defaultpath true first.2).1 = Ret () ∧
  stdout (_check (res := Demo.resources) (hst := Demo.host)
            Demo.userpath Demo.defaultpath true first.2).2 = stdout first.2.
Proof. vm_compute. repeat split. Qed.

(** * Further properties *)

(** ** The evaluator *)

(** X1. An exception raised by [match], or by [test] once [match] has
    returned true, comes out of [apply] as it is; nothing but the call
    record changes, and when it is [match] that raises, [test] is not
    called. *)
Theorem apply_propagates_errors {Node Path : Type} {res : Resources}
    (r : _Rule Node) (p : Path) (n : Node) (w : World Node) (e : exn) :
  rule_match r n = Raise e ∨
  (rule_match r n = Ret true ∧ rule_test r n = Raise e) →
  (apply r p n w).1 = Raise e ∧
  same_but_calls w (apply r p n w).2 ∧
  (rule_match r n = Raise e →
   calls (apply r p n w).2 = calls w ++ [CallMatch n]).
Proof.
  intros Hcase. rewrite apply_run.
  destruct Hcase as [Hm|[Hm Ht]]; rewrite Hm; [|rewrite Ht]; simpl.
  - repeat split.
  - split; [reflexivity|]. split; [repeat split | discriminate].
Qed.

Lemma apply_propagates_errors_witness :
  (rule_match {| rule_cls := ClsError; rule_match := Demo.is_body;
                 rule_test := Demo.broken; rule_message := "m" |}
     Demo.body_with_h1 = Ret true ∧
   rule_test {| rule_cls := ClsError; rule_match := Demo.is_body;
                rule_test := Demo.broken; rule_message := "m" |}
     Demo.body_with_h1 = Raise (UserError "boom")) ∧
  (apply (res := Demo.resources)
     {| rule_cls := ClsError; rule_match := Demo.is_body;
        rule_test := Demo.broken; rule_message := "m" |}
     "topic.htm" Demo.body_with_h1 Demo.fresh_install).1
  = Raise (UserError "boom").
Proof.
  split; [split; reflexivity|].
  apply (apply_propagates_errors (res := Demo.resources)
           {| rule_cls := ClsError; rule_match := Demo.is_body;
              rule_test := Demo.broken; rule_message := "m" |}
           "topic.htm" Demo.body_with_h1 Demo.fresh_install
           (UserError "boom")).
  right. split; reflexivity.
Defined.

(** X2. Whatever its outcome, [apply] leaves the registry, the heap,
    the environment, the files and the output alone; it calls [match]
    once and then [test] at most once. *)
Theorem apply_changes_calls_only {Node Path : Type} {res : Resources}
    (r : _Rule Node) (p : Path) (n : Node) (w : World Node) :
  same_but_calls w (apply r p n w).2 ∧
  (calls (apply r p n w).2 = calls w ++ [CallMatch n] ∨
   calls (apply r p n w).2 = calls w ++ [CallMatch n; CallTest n]).
Proof.
  rewrite apply_run.
  destruct (rule_match r n) as [[|]|e]; simpl.
  - destruct (rule_test r n) as [[|]|e]; simpl;
      (split; [repeat split | right; by rewrite <- app_assoc]).
  - split; [repeat split | by left].
  - split; [repeat split | by left].
Qed.

(** ** The registry *)

Section RegistryDomain.
Context {Node : Type}.
Implicit Types (w : World Node) (rb : gmap string (list rule_ref)).


End RegistryDomain.


(** X4. In every reachable state each reference the registry returns
    is the reference of an object in the heap: a lookup never yields a
    dangling rule. *)
Theorem registered_rules_resolve {Node : Type} {res : Resources} {hst : Host}
    (w : World Node) (e : string) (l : list rule_ref) (r : rule_ref) :
  reachable w →
  (getrules e w).1 = Ret (Some l) →
  r ∈ l →
  is_Some (heap w !! r).
Proof.
  intros Hr [= Hl] Hin.
  apply reachable_invariants in Hr as [_ Hwf].
  apply lookup_lt_is_Some. by apply (Hwf e l).
Qed.

Lemma registered_rules_resolve_witness :
  reachable (res := Demo.resources) (hst := Demo.host) Demo.loaded ∧
  (getrules ".htm" Demo.loaded).1 = Ret (Some [0; 1]) ∧
  1 ∈ [0; 1] ∧
  is_Some (heap Demo.loaded !! 1).
Proof.
  assert (Hr : reachable (res := Demo.resources) (hst := Demo.host) Demo.loaded)
    by apply reach_load, reach_initial.
  assert (Hl : (getrules ".htm" Demo.loaded).1 = Ret (Some [0; 1]))
    by (vm_compute; reflexivity).
  assert (Hin : 1 ∈ [0; 1]) by (right; left).
  repeat (split; [assumption|]).
  exact (registered_rules_resolve (res := Demo.resources) (hst := Demo.host)
           Demo.loaded ".htm" [0; 1] 1 Hr Hl Hin).
Defined.

(** ** The loader: what it keeps *)

Section LoaderFrames.
Context {Node : Type} {res : Resources} {hst : Host}.
Implicit Types (w : World Node) (P : World Node → Prop).

Lemma extends_refl w : extends w w.
Proof. split; [done|]. intros e l Hl. eauto. Qed.

Lemma extends_registry_only w0 : registry_only (extends w0).
Proof.
  intros w w' Hrb Hh [Hheap Hseq]. split; [by rewrite Hh|].
  intros e l Hl. rewrite Hrb. by apply Hseq.
Qed.

Lemma extends_init w0 c extensions (m t : predicate Node) msg :
  preserves (extends w0) (__init__ c extensions m t msg).
Proof.
  intros w [Hheap Hseq]. rewrite init_run.
  cbn [snd]. split.
  - cbn [heap set_rulebook set_heap].
    etrans; [exact Hheap|]. by apply prefix_app_r.
  - intros e l Hl. cbn [_rulebook set_rulebook set_heap].
    destruct (Hseq e l Hl) as (l' & Hl' & Hpre).
    rewrite lookup_rulebook_after, Hl'.
    destruct (occurrences e extensions) as [|k]; [eauto|].
    eexists. split; [reflexivity|]. simpl. by apply prefix_app_r.
Qed.








End LoaderFrames.

Section LoadShape.
Context {Node : Type} {res : Resources} {hst : Host}.
Implicit Types (w : World Node).

(** [load] once [APPDATA] has been read: the bootstrap check, then the
    rest. *)
Lemma load_unfold (verbose : bool) w appdata :
  environ w !! "APPDATA" = Some appdata →
  load verbose w =
  (_check (path_join appdata "FlareLint") (path_join module_dir "rules") verbose;;
   ((if verbose
     then print (PROGRESS_RULES_LOAD_format (path_join appdata "FlareLint"))
     else mret ()) : M Node ());;
   rulemodules ← glob_glob (Node := Node) (path_join appdata "FlareLint")
                   _RULE_MODULE_PATTERN;
   for_ rulemodules (λ modulefile : string,
     (if verbose then print ("  " +:+ modulefile) else mret ());;
     exec_module (path_join appdata "FlareLint") modulefile);;
   rb ← gets _rulebook;
   if decide (rb = ∅) then raise AssertionError else mret ()) w.
Proof.
  intros Henv. unfold load. unfold mbind at 1, M_bind at 1, environ_get.
  rewrite Henv. reflexivity.
Qed.

Lemma load_no_appdata (verbose : bool) w :
  environ w !! "APPDATA" = None →
  load verbose w = (Raise (KeyError "APPDATA"), w).
Proof.
  intros Henv. unfold load. unfold mbind at 1, M_bind at 1, environ_get.
  rewrite Henv. reflexivity.
Qed.

(** An exception out of the loop over the rule files ends [load]. *)
Lemma load_loop_raises (verbose : bool) w appdata w1 w3 e :
  environ w !! "APPDATA" = Some appdata →
  _check (path_join appdata "FlareLint") (path_join module_dir "rules")
         verbose w = (Ret (), w1) →
  (rulemodules ← glob_glob (path_join appdata "FlareLint") _RULE_MODULE_PATTERN;
   for_ rulemodules (λ modulefile,
     (if verbose then print ("  " +:+ modulefile) else mret ());;
     exec_module (path_join appdata "FlareLint") modulefile))
    ((if verbose
      then print (PROGRESS_RULES_LOAD_format (path_join appdata "FlareLint"))
      else mret ()) w1).2 = (Raise e, w3) →
  load verbose w = (Raise e, w3).
Proof.
  intros Henv Hcheck Hloop.
  rewrite (load_unfold _ _ _ Henv).
  unfold mbind at 1, M_bind at 1. rewrite Hcheck.
  unfold mbind at 1, M_bind at 1.
  destruct ((if verbose
             then print (PROGRESS_RULES_LOAD_format (path_join appdata "FlareLint"))
             else mret ()) w1) as [[[]|e'] w2] eqn:Epr;
    [|destruct verbose; discriminate].
  cbn [snd] in Hloop.
  unfold mbind at 1, M_bind at 1.
  unfold mbind at 1, M_bind at 1 in Hloop.
  destruct (glob_glob (path_join appdata "FlareLint") _RULE_MODULE_PATTERN w2)
    as [[names|e'] w2'] eqn:Eg.
  - unfold mbind at 1, M_bind at 1. by rewrite Hloop.
  - rewrite glob_glob_run in Eg. discriminate.
Qed.

End LoadShape.

(** X5. Neither [load] nor the construction of a rule ever removes,
    replaces or reorders what is registered: whether they return or
    raise, the heap they leave starts with the old heap and every
    sequence of the registry starts with the old sequence. *)
Theorem load_append_only {Node : Type} {res : Resources} {hst : Host}
    (verbose : bool) (w : World Node) :
  extends w (load verbose w).2 ∧
  (∀ c extensions (m t : predicate Node) msg,
     extends w (__init__ c extensions m t msg w).2).
Proof.
  split.
  - apply (preserves_load (extends w) verbose).
    + apply extends_registry_only.
    + intros. apply extends_init.
    + apply extends_refl.
  - intros. apply extends_init, extends_refl.
Qed.

(** X6. [load] does not catch what a rule file raises: when the
    bootstrap check has succeeded and executing the enumerated files
    stops with an exception, [load] raises that exception, in the state
    reached at that point; what the files registered before it stays
    registered, and the final assertion is not reached. *)
Theorem load_propagates_module_error {Node : Type} {res : Resources}
    {hst : Host} (verbose : bool) (w : World Node) (appdata : string)
    (w1 w3 : World Node) (e : exn) :
  environ w !! "APPDATA" = Some appdata →
  _check (path_join appdata "FlareLint") (path_join module_dir "rules")
         verbose w = (Ret (), w1) →
  (rulemodules ← glob_glob (path_join appdata "FlareLint") _RULE_MODULE_PATTERN;
   for_ rulemodules (λ modulefile,
     (if verbose then print ("  " +:+ modulefile) else mret ());;
     exec_module (path_join appdata "FlareLint") modulefile))
    ((if verbose
      then print (PROGRESS_RULES_LOAD_format (path_join appdata "FlareLint"))
      else mret ()) w1).2 = (Raise e, w3) →
  load verbose w = (Raise e, w3) ∧ extends w w3.
Proof.
  intros Henv Hcheck Hloop.
  pose proof (load_loop_raises _ _ _ _ _ _ Henv Hcheck Hloop) as Hload.
  split; [exact Hload|].
  change w3 with (Raise (A := ()) e, w3).2. rewrite <- Hload.
  apply (preserves_load (extends w) verbose).
  - apply extends_registry_only.
  - intros. apply extends_init.
  - apply extends_refl.
Qed.

Lemma load_propagates_module_error_witness :
  environ Scenarios.broken_install !! "APPDATA"
    = Some "C:\Users\u\AppData\Roaming" ∧
  load (res := Demo.resources) (hst := Demo.host) true Scenarios.broken_install
    = (Raise (UserError "NameError"), Scenarios.broken_after) ∧
  (getrules ".fltoc" Scenarios.broken_after).1 = Ret (Some [0]).
Proof.
  assert (Henv : environ Scenarios.broken_install !! "APPDATA"
                 = Some "C:\Users\u\AppData\Roaming") by (vm_compute; reflexivity).
  split; [exact Henv|]. split; [|vm_compute; reflexivity].
  apply (load_propagates_module_error (res := Demo.resources)
           (hst := Demo.host) true Scenarios.broken_install
           "C:\Users\u\AppData\Roaming" Scenarios.broken_install
           Scenarios.broken_after (UserError "NameError") Henv);
    vm_compute; reflexivity.
Defined.

(** X7. Without [APPDATA] in the environment, [_rulesdir] and [load]
    raise [KeyError] and change nothing: no directory is created, no
    file is copied or executed, nothing is printed. *)
Theorem appdata_is_required {Node : Type} {res : Resources} {hst : Host}
    (verbose : bool) (w : World Node) :
  environ w !! "APPDATA" = None →
  load verbose w = (Raise (KeyError "APPDATA"), w) ∧
  _rulesdir w = (Raise (KeyError "APPDATA"), w).
Proof.
  intros Henv. split; [by apply load_no_appdata|].
  unfold _rulesdir, mbind, M_bind, environ_get. by rewrite Henv.
Qed.

Lemma appdata_is_required_witness :
  environ Scenarios.no_appdata !! "APPDATA" = None ∧
  load (res := Demo.resources) (hst := Demo.host) true Scenarios.no_appdata
    = (Raise (KeyError "APPDATA"), Scenarios.no_appdata).
Proof.
  assert (Henv : environ Scenarios.no_appdata !! "APPDATA" = None)
    by (vm_compute; reflexivity).
  split; [exact Henv|].
  apply (appdata_is_required (res := Demo.resources) (hst := Demo.host)
           true Scenarios.no_appdata Henv).
Defined.





(** ** The bootstrap check: failures and footprint *)

Section CheckFootprint.
Context {Node : Type} {res : Resources} {hst : Host}.
Implicit Types (w : World Node) (P : World Node → Prop).

(** [_check] when its guard fails: the optional progress line, then
    the seeding, whose outcome is the outcome of [_check]; the closing
    assertion holds whenever the seeding completes. *)
Lemma check_seeding_run user default (verbose : bool) w :
  (has_rules user w).1 = Ret false →
  _check user default verbose w =
  match (makedirs user;;
         srcs ← glob_glob default "*.py";
         for_ srcs (λ src, shutil_copy default src user))
          ((if verbose then print PROGRESS_RULES_DEFAULT else mret ()) w).2 with
  | (Ret _, w2) => (Ret (), w2)
  | (Raise e, w2) => (Raise e, w2)
  end.
Proof.
  intros Hg. unfold _check. unfold mbind at 1, M_bind at 1.
  assert (Eh : has_rules user w = (Ret false, w)).
  { rewrite has_rules_run in Hg |- *. cbn [fst] in Hg. by rewrite Hg. }
  rewrite Eh. cbn [negb].
  unfold mbind at 1, M_bind at 1.
  unfold mbind at 1, M_bind at 1.
  set (w0 := ((if verbose then print PROGRESS_RULES_DEFAULT else mret ()) w).2).
  assert (Hpr : (if verbose then print PROGRESS_RULES_DEFAULT else mret ()) w
                = (Ret (), w0)) by (subst w0; by destruct verbose).
  rewrite Hpr.
  destruct ((makedirs user;;
             srcs ← glob_glob default "*.py";
             for_ srcs (λ src, shutil_copy default src user)) w0)
    as [[[]|e] w2] eqn:Eseed; [|reflexivity].
  apply seed_block_ret in Eseed as (uents' & Hu' & _).
  unfold mbind, M_bind, isdir, gets. simpl. by rewrite Hu'.
Qed.

Lemma shutil_copy_error srcdir name dst w e w' :
  shutil_copy srcdir name dst w = (Raise e, w') → ∃ what, e = OSError what.
Proof.
  unfold shutil_copy.
  repeat (case_match; try discriminate); intros [= <- _]; eauto.
Qed.

Lemma copy_loop_error default user (srcs : list string) : ∀ w e w',
  for_ srcs (λ src, shutil_copy default src user) w = (Raise e, w') →
  ∃ what, e = OSError what.
Proof.
  induction srcs as [|src srcs IH]; intros w e w' Hrun; [discriminate|].
  rewrite for_cons in Hrun.
  destruct (shutil_copy default src user w) as [[[]|e1] w1] eqn:Ecopy.
  - by apply IH in Hrun.
  - injection Hrun as <- _. by apply shutil_copy_error in Ecopy.
Qed.

(** The seeding fails with operating-system errors only. *)
Lemma seed_block_error user default w0 e w2 :
  (makedirs user;;
   srcs ← glob_glob default "*.py";
   for_ srcs (λ src, shutil_copy default src user)) w0 = (Raise e, w2) →
  ∃ what, e = OSError what.
Proof.
  unfold mbind at 1, M_bind at 1.
  destruct (makedirs user w0) as [[[]|e1] w1] eqn:Emk.
  - unfold mbind, M_bind. rewrite glob_glob_run. apply copy_loop_error.
  - intros [= <- _]. unfold makedirs in Emk.
    repeat (case_match; try discriminate). injection Emk as <- _. eauto.
Qed.

(** The entries of the user directory that the seeding does not name
    are after it what they were before. *)
Lemma seed_block_keeps user default w0 w2 :
  (makedirs user;;
   srcs ← glob_glob default "*.py";
   for_ srcs (λ src, shutil_copy default src user)) w0 = (Ret (), w2) →
  ∃ uents', fs w2 !! user = Some (FsDir uents') ∧
    ∀ name,
      name ∉ glob._glob1 host_os
               match fs w0 !! default with
               | Some (FsDir entries) => (map_to_list entries).*1
               | _ => []
               end "*.py" →
      uents' !! name =
      match fs w0 !! user with
      | Some (FsDir entries) => entries !! name
      | _ => None
      end.
Proof.
  unfold mbind at 1, M_bind at 1, makedirs.
  destruct (fs w0 !! user) as [[|uents]|] eqn:Eu; [discriminate| |].
  - unfold mbind, M_bind. rewrite glob_glob_run.
    destruct (fs w0 !! default) as [[|dents]|] eqn:Ed.
    + rewrite glob1_nil. intros [= <-]. exists uents. by rewrite Eu.
    + intros Hloop.
      apply (copy_loop _ _ dents _ uents) in Hloop
        as (uents' & Hu' & _ & Hkept); [|done..].
      exists uents'. split; [done|]. intros name Hnot. by apply Hkept.
    + rewrite glob1_nil. intros [= <-]. exists uents. by rewrite Eu.
  - unfold mbind, M_bind. rewrite glob_glob_run. cbn [fs set_fs].
    destruct (decide (default = user)) as [->|Hne].
    + rewrite lookup_insert_eq, Eu, map_to_list_empty. simpl.
      rewrite glob1_nil. intros [= <-]. exists ∅.
      split; [apply lookup_insert_eq|]. intros name _. apply lookup_empty.
    + rewrite lookup_insert_ne by done.
      destruct (fs w0 !! default) as [[|dents]|] eqn:Ed.
      * rewrite glob1_nil. intros [= <-]. exists ∅.
        split; [apply lookup_insert_eq|]. intros name _. apply lookup_empty.
      * intros Hloop.
        apply (copy_loop _ _ dents _ ∅) in Hloop
          as (uents' & Hu' & _ & Hkept).
        -- exists uents'. split; [done|]. intros name Hnot.
           rewrite (Hkept _ Hnot). apply lookup_empty.
        -- simpl. by rewrite lookup_insert_ne.
        -- simpl. by rewrite lookup_insert_eq.
      * rewrite glob1_nil. intros [= <-]. exists ∅.
        split; [apply lookup_insert_eq|]. intros name _. apply lookup_empty.
Qed.

Lemma has_rules_cases user w :
  (has_rules user w).1 = Ret true ∨ (has_rules user w).1 = Ret false.
Proof.
  rewrite has_rules_run. cbn [fst].
  by destruct (match fs w !! user with
               | Some (FsDir _) => _ | _ => false end); [left|right].
Qed.

(** Steps that write files only keep whatever is indifferent to the
    file system. *)
Lemma preserves_makedirs_blind P d : fs_blind P → preserves P (makedirs d).
Proof.
  intros HP w Hw. unfold makedirs.
  destruct (fs w !! d) as [[|?]|]; simpl; try done. by apply HP.
Qed.

Lemma preserves_shutil_copy_blind P srcdir name dst :
  fs_blind P → preserves P (shutil_copy srcdir name dst).
Proof.
  intros HP w Hw. unfold shutil_copy.
  repeat (case_match; simpl; try done); by apply HP.
Qed.

Lemma preserves_seed_blind P user default :
  fs_blind P →
  preserves P (makedirs user;;
               srcs ← glob_glob default "*.py";
               for_ srcs (λ src, shutil_copy default src user)).
Proof.
  intros HP.
  apply preserves_bind; [by apply preserves_makedirs_blind | intros _].
  unfold glob_glob, listdir.
  repeat (apply preserves_bind; [try apply preserves_gets | intros ?]);
    try apply preserves_ret.
  apply preserves_for. intros src. by apply preserves_shutil_copy_blind.
Qed.

End CheckFootprint.

(** X10. [_check] fails with operating-system errors only: its closing
    assertion never fires, and whenever it returns, the user path is a
    directory. *)
Theorem check_postcondition {Node : Type} {res : Resources} {hst : Host}
    (user default : string) (verbose : bool) (w : World Node) :
  (_check user default verbose w).1 ≠ Raise AssertionError ∧
  (∀ e, (_check user default verbose w).1 = Raise e → ∃ what, e = OSError what) ∧
  ((_check user default verbose w).1 = Ret () →
   (isdir user (_check user default verbose w).2).1 = Ret true).
Proof.
  assert (Hmain :
    (∀ e, (_check user default verbose w).1 = Raise e → ∃ what, e = OSError what) ∧
    ((_check user default verbose w).1 = Ret () →
     (isdir user (_check user default verbose w).2).1 = Ret true)).
  { destruct (has_rules_cases user w) as [Hg|Hg].
    - rewrite (check_populated _ _ _ _ Hg). split; [discriminate|]. intros _.
      apply has_rules_true in Hg as (entries & name & Hfs & _).
      unfold isdir, gets. simpl. by rewrite Hfs.
    - rewrite (check_seeding_run _ _ _ _ Hg).
      destruct ((makedirs user;;
                 srcs ← glob_glob default "*.py";
                 for_ srcs (λ src, shutil_copy default src user))
                  ((if verbose then print PROGRESS_RULES_DEFAULT else mret ()) w).2)
        as [[[]|e] w2] eqn:Eseed.
      + split; [discriminate|]. intros _.
        apply seed_block_ret in Eseed as (uents' & Hu' & _).
        unfold isdir, gets. simpl. by rewrite Hu'.
      + split; [|discriminate]. intros e' [= <-].
        by apply seed_block_error in Eseed. }
  split; [|exact Hmain].
  intros Ha. destruct Hmain as [Herr _].
  destruct (Herr _ Ha) as [what Hw]. discriminate.
Qed.

(** X11. When the user path names a regular file, [_check] fails with
    [FileExistsError] before anything is copied: the file system and the
    registry are as before. *)
Theorem check_fails_on_regular_file {Node : Type} {res : Resources}
    {hst : Host} (user default : string) (verbose : bool) (w : World Node) :
  fs w !! user = Some FsFile →
  (_check user default verbose w).1 = Raise (OSError "FileExistsError") ∧
  fs (_check user default verbose w).2 = fs w ∧
  _rulebook (_check user default verbose w).2 = _rulebook w.
Proof.
  intros Hfs.
  assert (Hg : (has_rules user w).1 = Ret false).
  { rewrite has_rules_run. cbn [fst]. by rewrite Hfs. }
  rewrite (check_seeding_run _ _ _ _ Hg).
  set (w0 := ((if verbose then print PROGRESS_RULES_DEFAULT else mret ()) w).2).
  assert (Hfs0 : fs w0 = fs w) by (subst w0; by destruct verbose).
  assert (Eseed : (makedirs user;;
                   srcs ← glob_glob default "*.py";
                   for_ srcs (λ src, shutil_copy default src user)) w0
                  = (Raise (OSError "FileExistsError"), w0)).
  { unfold mbind at 1, M_bind at 1, makedirs. by rewrite Hfs0, Hfs. }
  rewrite Eseed. cbn [fst snd].
  split; [reflexivity|]. split; [exact Hfs0 | subst w0; by destruct verbose].
Qed.

Lemma check_fails_on_regular_file_witness :
  fs Scenarios.user_is_file !! Demo.userpath = Some FsFile ∧
  (_check (res := Demo.resources) (hst := Demo.host) Demo.userpath
     Demo.defaultpath true Scenarios.user_is_file).1
  = Raise (OSError "FileExistsError").
Proof.
  assert (Hfs : fs Scenarios.user_is_file !! Demo.userpath = Some FsFile)
    by (vm_compute; reflexivity).
  split; [exact Hfs|].
  apply (check_fails_on_regular_file (res := Demo.resources) (hst := Demo.host)
           Demo.userpath Demo.defaultpath true Scenarios.user_is_file Hfs).
Defined.


(** X13. When its guard fails, [_check] prints the progress line once
    if [verbose] is set and nothing otherwise, whether the seeding then
    succeeds or fails. *)
Theorem check_progress_line {Node : Type} {res : Resources} {hst : Host}
    (user default : string) (verbose : bool) (w : World Node) :
  (has_rules user w).1 = Ret false →
  stdout (_check user default verbose w).2 =
  stdout w ++ (if verbose then [PROGRESS_RULES_DEFAULT] else []).
Proof.
  intros Hg. rewrite (check_seeding_run _ _ _ _ Hg).
  set (w0 := ((if verbose then print PROGRESS_RULES_DEFAULT else mret ()) w).2).
  assert (Hout : stdout w0 =
                 stdout w ++ (if verbose then [PROGRESS_RULES_DEFAULT] else [])).
  { subst w0. destruct verbose; simpl; [done | by rewrite app_nil_r]. }
  rewrite <- Hout.
  pose proof (preserves_seed_blind (λ w' : World Node, stdout w' = stdout w0)
                user default)
    as Hseed.
  specialize (Hseed (λ f w1 Hw1, Hw1) w0 eq_refl). cbv beta in Hseed.
  destruct ((makedirs user;;
             srcs ← glob_glob default "*.py";
             for_ srcs (λ src, shutil_copy default src user)) w0)
    as [[[]|e] w2]; exact Hseed.
Qed.

Lemma check_progress_line_witness :
  (has_rules (hst := Demo.host) Demo.userpath Demo.fresh_install).1 = Ret false ∧
  stdout Demo.seeded = ["Copying default rules."].
Proof.
  assert (Hg : (has_rules (hst := Demo.host) Demo.userpath
                  Demo.fresh_install).1 = Ret false) by (vm_compute; reflexivity).
  split; [exact Hg|].
  exact (check_progress_line (res := Demo.resources) (hst := Demo.host)
           Demo.userpath Demo.defaultpath true Demo.fresh_install Hg).
Defined.

(** X14. Seeding removes nothing: when [_check] seeds the user
    directory and returns, every entry of the user directory whose name
    is not among the copied ones is what it was before. *)
Theorem seeding_keeps_other_entries {Node : Type} {res : Resources}
    {hst : Host} (user default : string) (verbose : bool)
    (w w' : World Node) (name : string) :
  (has_rules user w).1 = Ret false →
  _check user default verbose w = (Ret (), w') →
  name ∉ glob._glob1 host_os
           match fs w !! default with
           | Some (FsDir entries) => (map_to_list entries).*1
           | _ => []
           end "*.py" →
  ∃ uents', fs w' !! user = Some (FsDir uents') ∧
            uents' !! name =
            match fs w !! user with
            | Some (FsDir entries) => entries !! name
            | _ => None
            end.
Proof.
  intros Hg Hcheck Hnot. rewrite (check_seeding_run _ _ _ _ Hg) in Hcheck.
  assert (Hfs0 : fs ((if verbose then print PROGRESS_RULES_DEFAULT else mret ()) w).2
                 = fs w) by (by destruct verbose).
  destruct ((makedirs user;;
             srcs ← glob_glob default "*.py";
             for_ srcs (λ src, shutil_copy default src user))
              ((if verbose then print PROGRESS_RULES_DEFAULT else mret ()) w).2)
    as [[[]|e] w2] eqn:Eseed; [|discriminate].
  injection Hcheck as <-.
  apply seed_block_keeps in Eseed as (uents' & Hu' & Hkept).
  rewrite Hfs0 in Hkept. exists uents'. split; [done|]. by apply Hkept.
Qed.

Lemma seeding_keeps_other_entries_witness :
  (has_rules (hst := Demo.host) Demo.userpath Scenarios.unseeded).1 = Ret false ∧
  (_check (res := Demo.resources) (hst := Demo.host) Demo.userpath
     Demo.defaultpath false Scenarios.unseeded).1 = Ret () ∧
  ∃ uents',
    fs (_check (res := Demo.resources) (hst := Demo.host) Demo.userpath
          Demo.defaultpath false Scenarios.unseeded).2 !! Demo.userpath
      = Some (FsDir uents') ∧
    uents' !! "notes.txt" = Some (EFile []).
Proof.
  assert (Hg : (has_rules (hst := Demo.host) Demo.userpath
                  Scenarios.unseeded).1 = Ret false) by (vm_compute; reflexivity).
  assert (Hc : _check (res := Demo.resources) (hst := Demo.host) Demo.userpath
                 Demo.defaultpath false Scenarios.unseeded
               = (Ret (),
                  (_check (res := Demo.resources) (hst := Demo.host)
                     Demo.userpath Demo.defaultpath false Scenarios.unseeded).2))
    by (vm_compute; reflexivity).
  split; [exact Hg|]. split; [by rewrite Hc|].
  destruct (seeding_keeps_other_entries (res := Demo.resources)
              (hst := Demo.host) Demo.userpath Demo.defaultpath false
              Scenarios.unseeded _ "notes.txt" Hg Hc) as (uents' & Hu & Hk).
  - rewrite list_elem_of_In. vm_compute. intros [H|[H|[]]]; discriminate H.
  - exists uents'. split; [exact Hu|]. rewrite Hk. vm_compute. reflexivity.
Defined.

(** X15. After a [load] that returns, some extension has at least one
    rule. *)
Theorem load_success_has_rule {Node : Type} {res : Resources} {hst : Host}
    (verbose : bool) (w : World Node) :
  reachable w →
  (load verbose w).1 = Ret () →
  ∃ e r l, (getrules e (load verbose w).2).1 = Ret (Some (r :: l)).
Proof.
  intros Hr Hret.
  assert (Hne : _rulebook (load verbose w).2 ≠ ∅).
  { intros Hempty. apply load_raises_on_empty in Hempty.
    rewrite Hret in Hempty. discriminate. }
  apply map_choose in Hne as (e & l & Hl).
  pose proof (reachable_invariants _ (reach_load verbose w Hr)) as [Hseq _].
  destruct l as [|r l]; [by destruct (Hseq e [] Hl)|].
  exists e, r, l. unfold getrules, gets. simpl. by rewrite Hl.
Qed.

Lemma load_success_has_rule_witness :
  reachable (res := Demo.resources) (hst := Demo.host) Demo.fresh_install ∧
  (load (res := Demo.resources) (hst := Demo.host) true Demo.fresh_install).1
    = Ret () ∧
  ∃ e r l, (getrules e Demo.loaded).1 = Ret (Some (r :: l)).
Proof.
  assert (Hr : reachable (res := Demo.resources) (hst := Demo.host)
                 Demo.fresh_install) by apply reach_initial.
  assert (Hl : (load (res := Demo.resources) (hst := Demo.host) true
                  Demo.fresh_install).1 = Ret ()) by (vm_compute; reflexivity).
  repeat (split; [assumption|]).
  exact (load_success_has_rule (res := Demo.resources) (hst := Demo.host)
           true Demo.fresh_install Hr Hl).
Defined.

(** ** Which files are copied, and the shipped rule file *)

Section CopyPattern.
Context {Node : Type} {hst : Host}.
Implicit Types (w : World Node) (name : string).



End CopyPattern.


(** X17. Executing the shipped rule file registers one new rule,
    under [.props] and under no other extension.  Applied to a node on
    which [whenself('Shape')] returns [b], that rule reports a warning
    carrying the node and the message of the file exactly when [b] is
    true and the text of the node starts with [{\rtf]; otherwise it
    returns [None]. *)
Theorem hardformat_rule {Node Path : Type} {res : Resources}
    {api : FlareNode Node} (w : World Node) (p : Path) (n : Node)
    (b : bool) (t : string) :
  whenself "Shape" n = Ret b →
  node_text n = Ret t →
  let self := length (heap w) in
  let w' := (for_ flarelint_img_callout_hardformat exec_stmt w).2 in
  (for_ flarelint_img_callout_hardformat exec_stmt w).1 = Ret () ∧
  (getrules ".props" w').1
    = Ret (Some (default [] (_rulebook w !! ".props") ++ [self])) ∧
  (∀ e, e ≠ ".props" → (getrules e w').1 = (getrules e w).1) ∧
  ∃ r, heap w' !! self = Some r ∧
       (apply r p n w').1 =
       Ret (if b && String.prefix "{\rtf" t
            then Some {| path := p; level := WARNING_LEVEL; node := n;
                         message := hardformat_message |}
            else None).
Proof.
  intros Hm Ht self w'. subst w'.
  unfold flarelint_img_callout_hardformat.
  rewrite for_cons, exec_stmt_run, init_run. cbn [for_ mret M_ret fst snd].
  unfold getrules, gets.
  cbn [fst snd _rulebook heap set_rulebook set_heap].
  split; [reflexivity|]. split; [|split].
  - rewrite lookup_rulebook_after. reflexivity.
  - intros e He. rewrite lookup_rulebook_after_other; [reflexivity|].
    unfold CAPTURE_GRAPHICS. rewrite list_elem_of_singleton. done.
  - eexists. split.
    + subst self. rewrite lookup_app_r, Nat.sub_diag by lia. reflexivity.
    + rewrite apply_run. cbn [rule_match rule_test rule_cls rule_message].
      rewrite Hm. destruct b; [|reflexivity].
      unfold hardformat_test. rewrite Ht. cbn [andb].
      by destruct (String.prefix "{\rtf" t).
Qed.

Lemma hardformat_rule_witness :
  whenself (FlareNode := Scenarios.shape_api) "Shape" Scenarios.rtf_callout
    = Ret true ∧
  node_text (FlareNode := Scenarios.shape_api) Scenarios.rtf_callout
    = Ret "{\rtf1 bold}" ∧
  ∃ r, heap (for_ (flarelint_img_callout_hardformat (api := Scenarios.shape_api))
               exec_stmt (initial ∅ ∅)).2 !! 0 = Some r ∧
       (apply (res := Demo.resources) r "callouts.props" Scenarios.rtf_callout
          (for_ (flarelint_img_callout_hardformat (api := Scenarios.shape_api))
             exec_stmt (initial ∅ ∅)).2).1
       = Ret (Some {| path := "callouts.props"; level := "WARNING";
                      node := Scenarios.rtf_callout;
                      message := hardformat_message |}).
Proof.
  split; [reflexivity|]. split; [reflexivity|].
  destruct (hardformat_rule (res := Demo.resources) (api := Scenarios.shape_api)
              (initial ∅ ∅) "callouts.props" Scenarios.rtf_callout true
              "{\rtf1 bold}" eq_refl eq_refl) as (_ & _ & _ & r & Hr & Ha).
  exists r. split; [exact Hr | exact Ha].
Defined.

(** X18. Registering a rule under a concatenation of extension lists
    is registering it under the first list and then under the second. *)
Theorem addrule_app {Node : Type} (l1 l2 : list string) (r : rule_ref)
    (w : World Node) :
  _addrule (l1 ++ l2) r w = (_addrule l1 r;; _addrule l2 r) w.
Proof.
  unfold mbind, M_bind. rewrite !addrule_run.
  unfold rulebook_after, set_rulebook. simpl. by rewrite foldl_app.
Qed.

(** ** Executing a rule file *)

(** X19. Executing the top-level code of a rule file builds its rule
    objects in source order at consecutive references, up to the first
    statement that raises, and registers them in that order: each
    extension's sequence is the old one followed by the new rules in
    source order.  The outcome is the exception of the first raising
    statement, if there is one. *)
Theorem module_execution_order {Node : Type} (code : list (toplevel Node))
    (w : World Node) (e : string) :
  (for_ code exec_stmt w).1 = module_outcome code ∧
  heap (for_ code exec_stmt w).2 = heap w ++ module_objects code ∧
  _rulebook (for_ code exec_stmt w).2
    = _rulebook (register_all (module_events (length (heap w)) code) w).2 ∧
  (getrules e (for_ code exec_stmt w).2).1 =
    Ret (match _rulebook w !! e,
               registered_under e (module_events (length (heap w)) code) with
         | None, [] => None
         | o, l => Some (default [] o ++ l)
         end).
Proof.
  assert (Hmain : ∀ w : World Node,
    (for_ code exec_stmt w).1 = module_outcome code ∧
    heap (for_ code exec_stmt w).2 = heap w ++ module_objects code ∧
    _rulebook (for_ code exec_stmt w).2
      = _rulebook (register_all (module_events (length (heap w)) code) w).2).
  { induction code as [|s code IH]; intros w0.
    - simpl. by rewrite app_nil_r.
    - rewrite for_cons, exec_stmt_run.
      destruct s as [c extensions m t msg|ex].
      + rewrite init_run. cbn [snd].
        destruct (IH (set_rulebook (rulebook_after extensions (length (heap w0)))
                        (set_heap (λ h, h ++ [{| rule_cls := c; rule_match := m;
                                                 rule_test := t;
                                                 rule_message := msg |}]) w0)))
          as (Ho & Hh & Hrb).
        split; [exact Ho|]. split.
        * rewrite Hh. simpl. by rewrite <- app_assoc.
        * rewrite Hrb, !register_all_run. simpl.
          rewrite length_app, Nat.add_1_r. reflexivity.
      + simpl. by rewrite app_nil_r. }
  destruct (Hmain w) as (Ho & Hh & Hrb).
  repeat (split; [assumption|]).
  unfold getrules, gets. cbn [fst]. rewrite Hrb, register_all_run.
  cbn [snd _rulebook set_rulebook]. by rewrite lookup_register_all.
Qed.

Example module_execution_order_demo :
  (getrules ".htm" (for_ Demo.topic_rules exec_stmt Demo.fresh_install).2).1
    = Ret (Some [0; 1]) ∧
  (for_ Scenarios.bad_rules exec_stmt Demo.fresh_install).1
    = Raise (UserError "NameError").
Proof. split; reflexivity. Qed.
